(** * NEO: near-Earth objects and their close approaches

    A shallow embedding of the Python sources [models.py], [filters.py] and
    [neo/database.py], and the properties of the linked store, of the
    composite query filter and of the result limiter.

    Python objects live in a heap and are named by references, so that the
    aliasing between [approach.neo], [neo.approaches] and the collections
    of the database is the one of the program.  Exceptions are values of
    the type [exn]; a computation that may raise returns a [result]. *)

From Stdlib Require Import ZArith Ascii String List Bool Lia.
From Stdlib Require Import Floats.SpecFloat.
From stdpp Require Import gmap strings list fin_maps.

Open Scope Z_scope.

(** ** Python builtins *)

Module builtins.

(** The exceptions the modelled code can raise.  [Dangling] is the
    answer of the heap to a reference it does not hold; Python has no
    such reference. *)
Inductive exn : Type :=
| KeyError
| IndexError
| TypeError
| ValueError
| AttributeError
| UnsupportedCriterionError
| Dangling.

Inductive result (A : Type) : Type :=
| Ok (a : A)
| Raise (e : exn).
Arguments Ok {A} a.
Arguments Raise {A} e.

Definition bind {A B} (r : result A) (k : A -> result B) : result B :=
  match r with
  | Ok a => k a
  | Raise e => Raise e
  end.

(** Python's [float]: an IEEE 754 binary64 number, written with the
    Standard Library's specification of floating-point numbers, in the
    canonical form that [py_float] below returns.  The comparisons [SFeqb]
    and [SFleb] are the IEEE ones: every comparison with a not-a-number is
    false. *)
Definition float : Type := spec_float.
Definition prec : Z := 53.
Definition emax : Z := 1024.
Definition nan : float := S754_nan.

(** The comparators of the [operator] module that [create_filters] uses. *)
Module operator.
Inductive t : Type := eq | ge | le.
End operator.

(** [x OP y] on values of one Python type. *)
Class Comparable (T : Type) : Type := py_op : operator.t -> T -> T -> bool.

#[global] Instance float_comparable : Comparable float := fun o x y =>
  match o with
  | operator.eq => SFeqb x y
  | operator.ge => SFleb y x
  | operator.le => SFleb x y
  end.

(** [bool] is a subclass of [int]: [False < True]. *)
#[global] Instance bool_comparable : Comparable bool := fun o x y =>
  match o with
  | operator.eq => Bool.eqb x y
  | operator.ge => implb y x
  | operator.le => implb x y
  end.

(** *** [float(x)] on a string or [None]

    On an ASCII string the grammar is the one of the language reference:
    optional surrounding whitespace, an optional sign, then [nan], [inf]
    or [infinity] in any case, or a decimal number with an optional
    exponent, where one underscore may separate two digits; anything else
    raises [ValueError].  The value is the decimal number rounded to
    nearest-even.

    A string holds the UTF-8 bytes of the Python string.  With a
    character outside ASCII, [float] first maps the decimal digits and
    the spaces of every script to their ASCII counterparts, by the
    Unicode tables of the interpreter; these tables are not modelled, and
    [float] on such a string is the function [float_unicode], which the
    definitions below take as it comes. *)

Definition is_space (c : ascii) : bool :=
  let n := Z.of_nat (nat_of_ascii c) in
  (n =? 32) || ((9 <=? n) && (n <=? 13)).

Fixpoint lstrip (s : list ascii) : list ascii :=
  match s with
  | c :: s' => if is_space c then lstrip s' else s
  | [] => []
  end.

Definition strip (s : list ascii) : list ascii :=
  rev (lstrip (rev (lstrip s))).

Definition digit_val (c : ascii) : option Z :=
  let n := Z.of_nat (nat_of_ascii c) in
  if (48 <=? n) && (n <=? 57) then Some (n - 48) else None.

Definition lower (c : ascii) : ascii :=
  let n := nat_of_ascii c in
  if ((65 <=? n) && (n <=? 90))%nat then ascii_of_nat (n + 32) else c.

(** The rest of a [digitpart] after its first digit: [acc] is the value
    of the digits read so far, [cnt] their number. *)
Fixpoint digits_tail (acc : Z) (cnt : Z) (s : list ascii)
  : Z * Z * list ascii :=
  match s with
  | c :: s' =>
      match digit_val c with
      | Some d => digits_tail (10 * acc + d) (cnt + 1) s'
      | None =>
          if Ascii.eqb c "_"
          then match s' with
               | c2 :: s'' =>
                   match digit_val c2 with
                   | Some d => digits_tail (10 * acc + d) (cnt + 1) s''
                   | None => (acc, cnt, s)
                   end
               | [] => (acc, cnt, s)
               end
          else (acc, cnt, s)
      end
  | [] => (acc, cnt, [])
  end.

Definition digitpart (acc : Z) (s : list ascii)
  : option (Z * Z * list ascii) :=
  match s with
  | c :: s' =>
      match digit_val c with
      | Some d => Some (digits_tail (10 * acc + d) 1 s')
      | None => None
      end
  | [] => None
  end.

(** [number ::= [digitpart] "." digitpart | digitpart ["."]]: the digits
    as one integer, the number of digits after the point, the rest. *)
Definition number (s : list ascii) : option (Z * Z * list ascii) :=
  match digitpart 0 s with
  | Some (m, _, rest) =>
      match rest with
      | "."%char :: rest' =>
          match digitpart m rest' with
          | Some r => Some r
          | None => Some (m, 0, rest')
          end
      | _ => Some (m, 0, rest)
      end
  | None =>
      match s with
      | "."%char :: rest' => digitpart 0 rest'
      | _ => None
      end
  end.

Definition sign (s : list ascii) : bool * list ascii :=
  match s with
  | "-"%char :: s' => (true, s')
  | "+"%char :: s' => (false, s')
  | _ => (false, s)
  end.

(** [exponent ::= ("e" | "E") [sign] digitpart]; no exponent is 0. *)
Definition exponent (s : list ascii) : option (Z * list ascii) :=
  match s with
  | c :: s' =>
      if Ascii.eqb (lower c) "e"
      then let '(neg, s'') := sign s' in
           match digitpart 0 s'' with
           | Some (e, _, rest) => Some (if neg then - e else e, rest)
           | None => None
           end
      else Some (0, s)
  | [] => Some (0, [])
  end.

(** [m * 10^e], rounded to nearest-even in binary64. *)
Definition float_of_decimal (neg : bool) (m e : Z) : float :=
  match m with
  | Zpos p =>
      SFdiv prec emax
        (S754_finite neg (p * Z.to_pos (10 ^ Z.max e 0)) 0)
        (S754_finite false (Z.to_pos (10 ^ Z.max (- e) 0)) 0)
  | _ => S754_zero neg
  end.

Definition py_float_ascii (s : string) : result float :=
  let '(neg, body) := sign (strip (list_ascii_of_string s)) in
  let word := string_of_list_ascii (map lower body) in
  if String.eqb word "nan" then Ok nan
  else if String.eqb word "inf" || String.eqb word "infinity"
  then Ok (S754_infinity neg)
  else match number body with
       | Some (m, k, rest) =>
           match exponent rest with
           | Some (e, []) => Ok (float_of_decimal neg m (e - k))
           | _ => Raise ValueError
           end
       | None => Raise ValueError
       end.

Definition is_ascii (s : string) : bool :=
  forallb (fun c => (nat_of_ascii c <? 128)%nat) (list_ascii_of_string s).

Definition py_float (float_unicode : string -> result float) (s : string)
  : result float :=
  if is_ascii s then py_float_ascii s else float_unicode s.

(** [float(x)] for [x] a string or [None]. *)
Definition float_of (float_unicode : string -> result float)
    (x : option string) : result float :=
  match x with
  | Some s => py_float float_unicode s
  | None => Raise TypeError
  end.

End builtins.

Import builtins.

Notation "'let!' x ':=' c1 'in' c2" := (bind c1 (fun x => c2))
  (at level 10, x name, c1 at level 100, c2 at level 200).

(** ** The [datetime] module: calendar dates and minute-precision times *)

Module datetime.

Record date_t : Type := Date { year : Z; month : Z; day : Z }.

(** [time.date()] is the projection [date]. *)
Record datetime : Type := Datetime { date : date_t; hour : Z; minute : Z }.

(** Dates are ordered as the triples (year, month, day). *)
Definition cmp (a b : date_t) : comparison :=
  match year a ?= year b with
  | Eq => match month a ?= month b with
          | Eq => day a ?= day b
          | c => c
          end
  | c => c
  end.

Definition eqb (a b : date_t) : bool :=
  match cmp a b with
  | Eq => true
  | _ => false
  end.

Definition leb (a b : date_t) : bool :=
  match cmp a b with
  | Gt => false
  | _ => true
  end.

#[global] Instance date_comparable : Comparable date_t := fun o x y =>
  match o with
  | operator.eq => eqb x y
  | operator.ge => leb y x
  | operator.le => leb x y
  end.

End datetime.

(** ** [models.py]: the two record types and the heap that holds them *)

Module models.

(** Object identity: a reference is an address of the heap. *)
Abbreviation ref := nat (only parsing).

Record NearEarthObject : Type := {
  designation : option string;
  name : option string;
  diameter : float;
  hazardous : bool;
  approaches : list ref   (* the list made by [__init__], of references
                             to [CloseApproach] objects *)
}.

Record CloseApproach : Type := {
  _designation : option string;
  time : datetime.datetime;
  distance : float;
  velocity : float;
  neo : option ref        (* [None] until linked *)
}.

Record heap : Type := Heap {
  neo_objs : gmap nat NearEarthObject;
  ca_objs : gmap nat CloseApproach
}.

(** The keyword dictionary of a constructor holds, under a field name,
    a string or [None].  That is what [csv.DictReader] gives under the
    names of the header ([None] where the row is short), and what a row
    of the close-approach file holds (strings and nulls). *)

(** [info.get(key, dflt)] *)
Definition get (info : gmap string (option string)) (key : string)
    (dflt : option string) : option string :=
  match info !! key with
  | Some v => v
  | None => dflt
  end.

Section Decoding.
Variable float_unicode : string -> result float.

Definition NearEarthObject_init (info : gmap string (option string))
  : result NearEarthObject :=
  let designation := get info "pdes" None in
  let name := get info "name" None in
  let diameter := get info "diameter" (Some "nan"%string) in
  let name := if decide (name = Some ""%string) then None else name in
  let diameter :=
    if decide (diameter = Some ""%string) then Some "nan"%string
    else diameter in
  let! diameter := float_of float_unicode diameter in
  Ok {| designation := designation;
        name := name;
        diameter := diameter;
        hazardous :=
          bool_decide (info !! "pha"%string = Some (Some "Y"%string));
        approaches := [] |}.

Section CloseApproach.
(** [helpers.cd_to_datetime] is not among the sources: the constructor
    is stated for any such function. *)
Variable cd_to_datetime : option string -> result datetime.datetime.

Definition CloseApproach_init (info : gmap string (option string))
  : result CloseApproach :=
  let designation := get info "des" None in
  let! time := cd_to_datetime (get info "cd" None) in
  let! distance :=
    float_of float_unicode (get info "dist" (Some "nan"%string)) in
  let! velocity :=
    float_of float_unicode (get info "v_rel" (Some "nan"%string)) in
  Ok {| _designation := designation;
        time := time;
        distance := distance;
        velocity := velocity;
        neo := None |}.
End CloseApproach.
End Decoding.

(** *** Stateful computations over the heap

    An exception leaves the heap as the mutations before it made it. *)
Definition M (A : Type) : Type := heap -> result A * heap.

Definition ret {A} (a : A) : M A := fun h => (Ok a, h).
Definition raise {A} (e : exn) : M A := fun h => (Raise e, h).
Definition bindM {A B} (c : M A) (k : A -> M B) : M B := fun h =>
  match c h with
  | (Ok a, h') => k a h'
  | (Raise e, h') => (Raise e, h')
  end.

Definition read_neo (r : ref) : M NearEarthObject := fun h =>
  match neo_objs h !! r with
  | Some o => (Ok o, h)
  | None => (Raise Dangling, h)
  end.

Definition read_ca (r : ref) : M CloseApproach := fun h =>
  match ca_objs h !! r with
  | Some a => (Ok a, h)
  | None => (Raise Dangling, h)
  end.

(** The object [a] after [a.neo = o]. *)
Definition with_neo (a : CloseApproach) (o : ref) : CloseApproach :=
  {| _designation := _designation a; time := time a;
     distance := distance a; velocity := velocity a; neo := Some o |}.

(** The object [n] after [n.approaches.append(a)]. *)
Definition with_approach (n : NearEarthObject) (a : ref)
  : NearEarthObject :=
  {| designation := designation n; name := name n;
     diameter := diameter n; hazardous := hazardous n;
     approaches := approaches n ++ [a] |}.

(** [approach.neo = o] *)
Definition set_neo (r : ref) (o : ref) : M unit := fun h =>
  match ca_objs h !! r with
  | Some a => (Ok tt, Heap (neo_objs h) (<[r := with_neo a o]> (ca_objs h)))
  | None => (Raise Dangling, h)
  end.

(** [o.approaches.append(a)] *)
Definition approaches_append (r : ref) (a : ref) : M unit := fun h =>
  match neo_objs h !! r with
  | Some n =>
      (Ok tt, Heap (<[r := with_approach n a]> (neo_objs h)) (ca_objs h))
  | None => (Raise Dangling, h)
  end.

End models.

Import models.

Notation "'let*' x ':=' c1 'in' c2" := (bindM c1 (fun x => c2))
  (at level 10, x name, c1 at level 100, c2 at level 200).

(** ** [filters.py]: attribute filters, the composite filter, the limiter *)

Module filters.

(** An [AttributeFilter] holds a comparator and a reference value, [None]
    when the criterion was not given.  [T] is the type of the attribute
    that the subclass's [get] fetches. *)
Record AttributeFilter (T : Type) : Type := {
  op : operator.t;
  value : option T
}.
Arguments Build_AttributeFilter {T} _ _.
Arguments op {T} _.
Arguments value {T} _.

(** The [get] class method of the superclass and of its five subclasses.
    The approach is read in the heap; [approach.neo.diameter] on an
    approach that is not linked is an attribute access on [None]. *)
Definition AttributeFilter_get {T} (h : heap) (approach : ref) : result T :=
  Raise UnsupportedCriterionError.

Definition attribute {T} (f : CloseApproach -> T) (h : heap) (approach : ref)
  : result T :=
  match ca_objs h !! approach with
  | Some a => Ok (f a)
  | None => Raise Dangling
  end.

Definition neo_attribute {T} (f : NearEarthObject -> T) (h : heap)
    (approach : ref) : result T :=
  let! o := attribute neo h approach in
  match o with
  | Some r =>
      match neo_objs h !! r with
      | Some n => Ok (f n)
      | None => Raise Dangling
      end
  | None => Raise AttributeError
  end.

Definition DateFilter_get : heap -> ref -> result datetime.date_t :=
  attribute (fun a => datetime.date (time a)).
Definition DistanceFilter_get : heap -> ref -> result float :=
  attribute distance.
Definition VelocityFilter_get : heap -> ref -> result float :=
  attribute velocity.
Definition DiameterFilter_get : heap -> ref -> result float :=
  neo_attribute diameter.
Definition HazardousFilter_get : heap -> ref -> result bool :=
  neo_attribute hazardous.

(** [self.op(self.get(approach), self.value)].  When the reference value
    is [None], [==] is false and an ordering comparison is a type
    error. *)
Definition AttributeFilter_call {T} `{Comparable T}
    (get : heap -> ref -> result T) (self : AttributeFilter T)
    (h : heap) (approach : ref) : result bool :=
  let! x := get h approach in
  match value self with
  | Some v => Ok (py_op (op self) x v)
  | None =>
      match op self with
      | operator.eq => Ok false
      | _ => Raise TypeError
      end
  end.

Record Filter : Type := {
  date : AttributeFilter datetime.date_t;
  start_date : AttributeFilter datetime.date_t;
  end_date : AttributeFilter datetime.date_t;
  distance_min : AttributeFilter float;
  distance_max : AttributeFilter float;
  velocity_min : AttributeFilter float;
  velocity_max : AttributeFilter float;
  diameter_min : AttributeFilter float;
  diameter_max : AttributeFilter float;
  hazardous : AttributeFilter bool
}.

(** One item of [vars(self).items()], as the loop of [Filter.__call__]
    uses it: whether [filter_.value is not None], and [filter_] as a
    callable. *)
Definition item {T} `{Comparable T} (get : heap -> ref -> result T)
    (filter_ : AttributeFilter T) : bool * (heap -> ref -> result bool) :=
  (bool_decide (value filter_ <> None), AttributeFilter_call get filter_).

(** The fields in the order of their declaration. *)
Definition vars (self : Filter)
  : list (bool * (heap -> ref -> result bool)) :=
  [ item DateFilter_get (date self);
    item DateFilter_get (start_date self);
    item DateFilter_get (end_date self);
    item DistanceFilter_get (distance_min self);
    item DistanceFilter_get (distance_max self);
    item VelocityFilter_get (velocity_min self);
    item VelocityFilter_get (velocity_max self);
    item DiameterFilter_get (diameter_min self);
    item DiameterFilter_get (diameter_max self);
    item HazardousFilter_get (hazardous self) ].

(** The loop of [Filter.__call__]; [result and filter_(approach)] does
    not call the filter when [result] is already false. *)
Fixpoint Filter_loop (items : list (bool * (heap -> ref -> result bool)))
    (result : bool) (h : heap) (approach : ref) : builtins.result bool :=
  match items with
  | [] => Ok result
  | (present, filter_) :: items' =>
      if present
      then let! result :=
             (if result then filter_ h approach else Ok false) in
           Filter_loop items' result h approach
      else Filter_loop items' result h approach
  end.

Definition Filter_call (self : Filter) (h : heap) (approach : ref)
  : result bool :=
  Filter_loop (vars self) true h approach.

Definition create_filters
    (date start_date end_date : option datetime.date_t)
    (distance_min distance_max : option float)
    (velocity_min velocity_max : option float)
    (diameter_min diameter_max : option float)
    (hazardous : option bool) : Filter :=
  {| date := Build_AttributeFilter operator.eq date;
     start_date := Build_AttributeFilter operator.ge start_date;
     end_date := Build_AttributeFilter operator.le end_date;
     distance_min := Build_AttributeFilter operator.ge distance_min;
     distance_max := Build_AttributeFilter operator.le distance_max;
     velocity_min := Build_AttributeFilter operator.ge velocity_min;
     velocity_max := Build_AttributeFilter operator.le velocity_max;
     diameter_min := Build_AttributeFilter operator.ge diameter_min;
     diameter_max := Build_AttributeFilter operator.le diameter_max;
     hazardous := Build_AttributeFilter operator.eq hazardous |}.

(** *** Iterators

    [next h s] is [__next__] on the iterator in state [s], in the heap
    [h]: [Ok None] is [StopIteration], [Ok (Some (x, s'))] yields [x]
    and leaves the iterator in state [s']. *)
Class Iterator (S A : Type) : Type :=
  next : heap -> S -> result (option (A * S)).

(** The iterator of a list: the elements still to come. *)
#[global] Instance list_iterator {A} : Iterator (list A) A := fun _ s =>
  match s with
  | [] => Ok None
  | x :: s' => Ok (Some (x, s'))
  end.

(** [list(s)]: pull until [StopIteration].  [None] when [fuel] pulls were
    not enough; the state the iterator is left in comes with the list. *)
Fixpoint collect {S A} `{Iterator S A} (fuel : nat) (h : heap) (s : S)
  : option (result (list A) * S) :=
  match fuel with
  | O => None
  | Datatypes.S fuel' =>
      match next h s with
      | Ok None => Some (Ok [], s)
      | Ok (Some (x, s')) =>
          match collect fuel' h s' with
          | Some (Ok l, s'') => Some (Ok (x :: l), s'')
          | r => r
          end
      | Raise e => Some (Raise e, s)
      end
  end.

(** The state of an iterator after [k] elements were pulled from it. *)
Fixpoint advance {S A} `{Iterator S A} (k : nat) (h : heap) (s : S)
  : option S :=
  match k with
  | O => Some s
  | Datatypes.S k' =>
      match next h s with
      | Ok (Some (_, s')) => advance k' h s'
      | _ => None
      end
  end.

(** *** [itertools.islice(iterator, stop)]

    The constructor checks its argument at once: a [stop] that is not
    [None] must be an integer with [0 <= stop <= sys.maxsize], anything
    else is a [ValueError].  The object counts the elements it has
    passed on in [cnt], and pulls from [it] only while [cnt < stop];
    [it] is the source iterator, which the caller shares. *)
Definition sys_maxsize : Z := 2 ^ 63 - 1.

Record islice_t (S : Type) : Type := {
  it : S;
  cnt : Z;
  stop : option Z
}.
Arguments it {S} _.
Arguments cnt {S} _.
Arguments stop {S} _.

Definition islice {S} (iterator : S) (stop : option Z)
  : result (islice_t S) :=
  match stop with
  | None => Ok {| it := iterator; cnt := 0; stop := None |}
  | Some n =>
      if (0 <=? n) && (n <=? sys_maxsize)
      then Ok {| it := iterator; cnt := 0; stop := Some n |}
      else Raise ValueError
  end.

#[global] Instance islice_iterator {S A} `{Iterator S A}
  : Iterator (islice_t S) A := fun h s =>
  if (match stop s with Some n => n <=? cnt s | None => false end)
  then Ok None
  else match next h (it s) with
       | Ok (Some (x, it')) =>
           Ok (Some (x, {| it := it'; cnt := cnt s + 1;
                           stop := stop s |}))
       | Ok None => Ok None
       | Raise e => Raise e
       end.

(** [n] is [None] or an integer. *)
Definition limit {S} (iterator : S) (n : option Z) : result (islice_t S) :=
  let n := if decide (n = Some 0) then None else n in
  islice iterator n.

End filters.

(** ** [neo/database.py]: the linked store *)

Module database.
Import filters.

Record NEODatabase : Type := {
  _neos : list ref;
  _approaches : list ref;
  _neosByDes : gmap string nat;
  _neosByName : gmap string nat
}.

(** [{key(neo): i for i, neo in enumerate(neos) if key(neo) is not None}]:
    the positions are entered from left to right, a later one replaces an
    earlier one under the same key. *)
Fixpoint dict_comp (key : NearEarthObject -> option string) (i : nat)
    (neos : list ref) (d : gmap string nat) : M (gmap string nat) :=
  match neos with
  | [] => ret d
  | r :: neos' =>
      let* o := read_neo r in
      match key o with
      | Some k => dict_comp key (S i) neos' (<[k := i]> d)
      | None => dict_comp key (S i) neos' d
      end
  end.

(** [d[k]]: [None] is never a key. *)
Definition dict_getitem (d : gmap string nat) (k : option string)
  : result nat :=
  match k with
  | Some s =>
      match d !! s with
      | Some i => Ok i
      | None => Raise KeyError
      end
  | None => Raise KeyError
  end.

(** [l[i]] for a position [i] that is not negative. *)
Definition list_getitem (l : list ref) (i : nat) : result ref :=
  match l !! i with
  | Some r => Ok r
  | None => Raise IndexError
  end.

Definition lift {A} (r : result A) : M A := fun h => (r, h).

(** The linking loop of the constructor. *)
Fixpoint link (self : NEODatabase) (approaches : list ref) : M unit :=
  match approaches with
  | [] => ret tt
  | approach :: approaches' =>
      let* a := read_ca approach in
      let* i := lift (dict_getitem (_neosByDes self) (_designation a)) in
      let* o := lift (list_getitem (_neos self) i) in
      let* _ := set_neo approach o in
      let* a := read_ca approach in
      let* _ := match neo a with
                | Some o' => approaches_append o' approach
                | None => raise AttributeError
                end in
      link self approaches'
  end.

Definition NEODatabase_init (neos approaches : list ref) : M NEODatabase :=
  let* byDes := dict_comp designation 0 neos ∅ in
  let* byName := dict_comp name 0 neos ∅ in
  let self := {| _neos := neos; _approaches := approaches;
                 _neosByDes := byDes; _neosByName := byName |} in
  let* _ := link self approaches in
  ret self.

(** The three [except] clauses turn a failed lookup into [None]. *)
Definition or_None (r : result ref) : result (option ref) :=
  match r with
  | Ok o => Ok (Some o)
  | Raise KeyError | Raise IndexError | Raise TypeError => Ok None
  | Raise e => Raise e
  end.

Definition get_neo_by_designation (self : NEODatabase)
    (designation : option string) : result (option ref) :=
  or_None (let! i := dict_getitem (_neosByDes self) designation in
           list_getitem (_neos self) i).

Definition get_neo_by_name (self : NEODatabase) (name : option string)
  : result (option ref) :=
  or_None (let! i := dict_getitem (_neosByName self) name in
           list_getitem (_neos self) i).

(** What [query] may receive as [filters]: a callable on an approach, or
    the empty tuple, which is the default of the parameter. *)
Inductive filters_arg : Type :=
| callable (f : heap -> ref -> result bool)
| empty_tuple.

(** [filters(approach)]: a tuple is not callable. *)
Definition call (filters : filters_arg) (h : heap) (approach : ref)
  : result bool :=
  match filters with
  | callable f => f h approach
  | empty_tuple => Raise TypeError
  end.

(** The generator that [query] returns: its [filters] and the approaches
    of [self._approaches] that the loop has not reached yet. *)
Record query_t : Type := {
  q_filters : filters_arg;
  q_rest : list ref
}.

(** [filters] is [None] when the call gives no argument. *)
Definition query (self : NEODatabase) (filters : option filters_arg)
  : query_t :=
  {| q_filters := match filters with
                  | Some f => f
                  | None => empty_tuple
                  end;
     q_rest := _approaches self |}.

(** Run the loop up to the next [yield]. *)
Fixpoint query_next (filters : filters_arg) (h : heap) (rest : list ref)
  : result (option (ref * query_t)) :=
  match rest with
  | [] => Ok None
  | approach :: rest' =>
      let! b := call filters h approach in
      if b : bool
      then Ok (Some (approach, {| q_filters := filters; q_rest := rest' |}))
      else query_next filters h rest'
  end.

#[global] Instance query_iterator : Iterator query_t ref := fun h s =>
  query_next (q_filters s) h (q_rest s).

End database.

Import filters database.

(** ** Vocabulary of the statements, and a small data set *)

(** A reference value that is absent asks nothing; one that is present is
    compared by [p]. *)
Definition slot {T} (v : option T) (p : T -> bool) : bool :=
  match v with
  | Some v => p v
  | None => true
  end.

(** What the reference value [v] of a filter with comparator [o] asks of
    the attribute [x]. *)
Definition holds {T} `{Comparable T} (o : operator.t) (v : option T) (x : T)
  : bool :=
  slot v (py_op o x).

(** The object an approach of the heap refers to. *)
Definition neo_of (h : heap) (a : ref) : option ref :=
  match ca_objs h !! a with
  | Some ca => neo ca
  | None => None
  end.

(** [distance <= X] on an approach of the heap. *)
Definition distance_le (h : heap) (X : float) (a : ref) : bool :=
  match ca_objs h !! a with
  | Some ca => SFleb (distance ca) X
  | None => false
  end.

(** One object, of unknown diameter and not hazardous, and one approach
    of it on 2020-Jan-01 00:00 at 0.5 au and 10 km/s. *)
Definition rocky : NearEarthObject :=
  {| designation := Some "A1"%string; name := Some "Rocky"%string;
     diameter := nan; models.hazardous := false; approaches := [] |}.

Definition flyby : CloseApproach :=
  {| _designation := Some "A1"%string;
     time := datetime.Datetime (datetime.Date 2020 1 1) 0 0;
     distance := S754_finite false 4503599627370496 (-53);
     velocity := S754_finite false 5629499534213120 (-49);
     neo := None |}.

Definition unlinked : heap := Heap {[ 0%nat := rocky ]} {[ 0%nat := flyby ]}.

Definition sample : result NEODatabase * heap :=
  NEODatabase_init [0%nat] [0%nat] unlinked.

Definition sample_db : NEODatabase :=
  {| _neos := [0%nat]; _approaches := [0%nat];
     _neosByDes := {[ "A1"%string := 0%nat ]};
     _neosByName := {[ "Rocky"%string := 0%nat ]} |}.

Definition linked : heap :=
  Heap {[ 0%nat := with_approach rocky 0%nat ]}
       {[ 0%nat := with_neo flyby 0%nat ]}.

(** The key of the object behind a reference, and the dictionary that the
    comprehension of the constructor builds from a list of keys. *)
Definition key_at (key : NearEarthObject -> option string) (h : heap)
    (r : ref) : option string :=
  match neo_objs h !! r with
  | Some n => key n
  | None => None
  end.

Fixpoint index_of (i : nat) (keys : list (option string))
    (d : gmap string nat) : gmap string nat :=
  match keys with
  | [] => d
  | Some k :: keys' => index_of (S i) keys' (<[k := i]> d)
  | None :: keys' => index_of (S i) keys' d
  end.

(** The object that the linking loop resolves the approach [a] to. *)
Definition target (self : NEODatabase) (h : heap) (a : ref) : option ref :=
  match ca_objs h !! a with
  | Some ca =>
      match dict_getitem (_neosByDes self) (_designation ca) with
      | Ok i => _neos self !! i
      | Raise _ => None
      end
  | None => None
  end.

(** What the linking loop leaves alone: the heap holds the same objects,
    and every field but [neo] and [approaches] is as it was. *)
Definition same_neo (n n' : NearEarthObject) : Prop :=
  designation n' = designation n /\ name n' = name n
  /\ diameter n' = diameter n /\ models.hazardous n' = models.hazardous n.

Definition same_ca (a a' : CloseApproach) : Prop :=
  _designation a' = _designation a /\ time a' = time a
  /\ distance a' = distance a /\ velocity a' = velocity a.

Definition frame (h h' : heap) : Prop :=
  (forall r, match neo_objs h !! r, neo_objs h' !! r with
             | Some n, Some n' => same_neo n n'
             | None, None => True
             | _, _ => False
             end)
  /\ (forall r, match ca_objs h !! r, ca_objs h' !! r with
                | Some a, Some a' => same_ca a a'
                | None, None => True
                | _, _ => False
                end).

(** An approach of an object that the data set does not have. *)
Definition orphan : CloseApproach :=
  {| _designation := Some "B2"%string; time := time flyby;
     distance := nan; velocity := nan; neo := None |}.

Definition orphan_heap : heap :=
  Heap {[ 0%nat := rocky ]} {[ 0%nat := flyby; 1%nat := orphan ]}.

(** A store whose only object has the empty string for designation. *)
Definition nameless : NearEarthObject :=
  {| designation := Some ""%string; name := None; diameter := nan;
     models.hazardous := false; approaches := [] |}.

Definition nameless_heap : heap := Heap {[ 0%nat := nameless ]} ∅.

Definition nameless_db : NEODatabase :=
  {| _neos := [0%nat]; _approaches := [];
     _neosByDes := {[ ""%string := 0%nat ]}; _neosByName := ∅ |}.

(** ** [models.py], continued: names, texts and the rows of the output *)

Module representations.

(** The values that the dictionaries of [to_csv] and [to_json] hold.  A
    dictionary is the list of its items in the order of the literal. *)
#[warnings="-register-all"]
Inductive pyvalue : Type :=
| VNone
| VStr (s : string)
| VFloat (x : float)
| VBool (b : bool)
| VDict (items : list (string * pyvalue)).

Definition of_optional (o : option string) : pyvalue :=
  match o with
  | Some s => VStr s
  | None => VNone
  end.

(** [f"{x}"] for [x] a string or [None]. *)
Definition format_str (o : option string) : string :=
  match o with
  | Some s => s
  | None => "None"
  end.

Definition fullname (self : NearEarthObject) : string :=
  match name self with
  | Some nm => format_str (designation self) +:+ " (" +:+ nm +:+ ")"
  | None => format_str (designation self)
  end.

Section Formatting.
(** [format(x, spec)] on a float is Python's own, and
    [helpers.datetime_to_str] is not among the sources: both are taken as
    they come. *)
Variable format_float : string -> float -> string.
Variable datetime_to_str : datetime.datetime -> string.

(** [NearEarthObject.__str__]; [float('nan')] is [nan]. *)
Definition NearEarthObject_str (self : NearEarthObject) : string :=
  let pha := if models.hazardous self
             then "potentially hazardous asteroid"
             else "safe asteroid" in
  let diameter :=
    if py_op operator.eq (diameter self) nan
    then "an undefined diameter"
    else "a diameter of " +:+ format_float ".3f" (diameter self) +:+ " km" in
  "NEO " +:+ fullname self +:+ " has " +:+ diameter
  +:+ " and marked as a " +:+ pha +:+ ".".

(** The property [time_str]. *)
Definition time_str (self : CloseApproach) : string :=
  datetime_to_str (time self).

(** [CloseApproach.__str__], on the approach behind a reference. *)
Definition CloseApproach_str (h : heap) (self : ref) : result string :=
  let! a := filters.attribute (fun a => a) h self in
  match neo a with
  | Some _ =>
      let! fullname := filters.neo_attribute fullname h self in
      Ok ("On " +:+ time_str a +:+ ", " +:+ fullname +:+ " "
          +:+ "approaches Earth at a distance of "
          +:+ format_float ".2f" (distance a)
          +:+ " au and a velocity of"
          +:+ " " +:+ format_float ".2f" (velocity a) +:+ " km/s.")
  | None => Ok "empty CloseApproach object"
  end.

Definition to_csv (h : heap) (self : ref)
  : result (list (string * pyvalue)) :=
  let! a := filters.attribute (fun a => a) h self in
  let! designation := filters.neo_attribute designation h self in
  let! name := filters.neo_attribute name h self in
  let! diameter := filters.neo_attribute diameter h self in
  let! hazardous := filters.neo_attribute models.hazardous h self in
  Ok [ ("datetime_utc", VStr (time_str a));
       ("distance_au", VFloat (distance a));
       ("velocity_km_s", VFloat (velocity a));
       ("designation", of_optional designation);
       ("name", of_optional name);
       ("diameter_km", VFloat diameter);
       ("potentially_hazardous", VBool hazardous) ]%string.

Definition to_json (h : heap) (self : ref)
  : result (list (string * pyvalue)) :=
  let! a := filters.attribute (fun a => a) h self in
  let! designation := filters.neo_attribute designation h self in
  let! name := filters.neo_attribute name h self in
  let! diameter := filters.neo_attribute diameter h self in
  let! hazardous := filters.neo_attribute models.hazardous h self in
  Ok [ ("datetime_utc", VStr (time_str a));
       ("distance_au", VFloat (distance a));
       ("velocity_km_s", VFloat (velocity a));
       ("neo", VDict [ ("designation", of_optional designation);
                       ("name", of_optional name);
                       ("diameter_km", VFloat diameter);
                       ("potentially_hazardous", VBool hazardous) ]) ]%string.

End Formatting.

End representations.

(** ** [write.py]: the rows handed to the writers

    What reaches the file is given as the rows that the CSV writer is
    handed, the header first, and as the list that [json.dump] is handed;
    the text that the two libraries make of them is theirs. *)

Module write.
Import filters representations.

Definition fieldnames : list string :=
  [ "datetime_utc"; "distance_au"; "velocity_km_s"; "designation"; "name";
    "diameter_km"; "potentially_hazardous" ]%string.

(** [rowdict.get(key, '')] *)
Fixpoint rowdict_get (rowdict : list (string * pyvalue)) (key : string)
  : pyvalue :=
  match rowdict with
  | [] => VStr ""
  | (k, v) :: rowdict' =>
      if String.eqb k key then v else rowdict_get rowdict' key
  end.

(** [csv.DictWriter(f, fieldnames).writerow(rowdict)]: a key outside the
    field names is a [ValueError], a field without a key is written
    empty. *)
Definition writerow (fieldnames : list string)
    (rowdict : list (string * pyvalue)) : result (list pyvalue) :=
  if forallb (fun kv => existsb (String.eqb (fst kv)) fieldnames) rowdict
  then Ok (map (rowdict_get rowdict) fieldnames)
  else Raise ValueError.

Section Writers.
Variable datetime_to_str : datetime.datetime -> string.

(** The loop of [write_to_csv]: [f] is what has been written. *)
Fixpoint write_rows {S} `{Iterator S nat} (fuel : nat) (h : heap)
    (results : S) (f : list (list pyvalue))
  : option (result unit * list (list pyvalue)) :=
  match fuel with
  | O => None
  | Datatypes.S fuel' =>
      match next h results with
      | Ok None => Some (Ok tt, f)
      | Ok (Some (elem, results')) =>
          match to_csv datetime_to_str h elem with
          | Ok rowdict =>
              match writerow fieldnames rowdict with
              | Ok cells => write_rows fuel' h results' (f ++ [cells])
              | Raise e => Some (Raise e, f)
              end
          | Raise e => Some (Raise e, f)
          end
      | Raise e => Some (Raise e, f)
      end
  end.

Definition write_to_csv {S} `{Iterator S nat} (fuel : nat) (h : heap)
    (results : S) : option (result unit * list (list pyvalue)) :=
  write_rows fuel h results [map VStr fieldnames].

(** [[elem.to_json() for elem in results]] *)
Fixpoint json_results {S} `{Iterator S nat} (fuel : nat) (h : heap)
    (results : S) : option (result (list pyvalue)) :=
  match fuel with
  | O => None
  | Datatypes.S fuel' =>
      match next h results with
      | Ok None => Some (Ok [])
      | Ok (Some (elem, results')) =>
          match to_json datetime_to_str h elem with
          | Ok d =>
              match json_results fuel' h results' with
              | Some (Ok l) => Some (Ok (VDict d :: l))
              | r => r
              end
          | Raise e => Some (Raise e)
          end
      | Raise e => Some (Raise e)
      end
  end.

(** The list is built before the file is opened: the outcome is the list
    that is dumped, or the exception and no file. *)
Definition write_to_json {S} `{Iterator S nat} (fuel : nat) (h : heap)
    (results : S) : option (result (list pyvalue)) :=
  json_results fuel h results.

End Writers.

End write.

(** ** [extract.py]: from decoded rows to objects

    [content] is what [csv.DictReader], respectively [json.load], gives
    for the file.  A new object gets an address that the heap does not
    hold. *)

Module extract.

(** A row of [csv.DictReader]: the values under the names of the header,
    and, when the row is longer than the header, the list of the values
    in excess, which the reader puts under the key [None]. *)
Record csv_row : Type := {
  row_fields : gmap string (option string);
  row_rest : option (list string)
}.

Definition new_neo (o : NearEarthObject) : M nat := fun h =>
  let r := fresh (dom (neo_objs h)) in
  (Ok r, Heap (<[r := o]> (neo_objs h)) (ca_objs h)).

Definition new_ca (a : CloseApproach) : M nat := fun h =>
  let r := fresh (dom (ca_objs h)) in
  (Ok r, Heap (neo_objs h) (<[r := a]> (ca_objs h))).

Section Loading.
Variable float_unicode : string -> result float.

(** [NearEarthObject] called with the row for keywords: the keywords of a
    call must be strings. *)
Definition NearEarthObject_of_row (neo : csv_row) : result NearEarthObject :=
  match row_rest neo with
  | Some _ => Raise TypeError
  | None => NearEarthObject_init float_unicode (row_fields neo)
  end.

(** The loop of [load_neos], from the list [neos] built so far. *)
Fixpoint load_neos_loop (content : list csv_row) (neos : list nat)
  : M (list nat) :=
  match content with
  | [] => ret neos
  | neo :: content' =>
      let* o := database.lift (NearEarthObject_of_row neo) in
      let* r := new_neo o in
      load_neos_loop content' (neos ++ [r])
  end.

Definition load_neos (content : list csv_row) : M (list nat) :=
  load_neos_loop content [].

(** [dict(zip(fields, info))]: the pairs are entered from left to right;
    a value of the row is a string or a null. *)
Definition dict_zip (fields : list string) (info : list (option string))
  : gmap string (option string) :=
  foldl (fun d kv => <[fst kv := snd kv]> d) ∅ (zip fields info).

Section LoadApproaches.
Variable cd_to_datetime : option string -> result datetime.datetime.

Fixpoint load_approaches_loop (fields : list string)
    (data : list (list (option string))) (approaches : list nat)
  : M (list nat) :=
  match data with
  | [] => ret approaches
  | info :: data' =>
      let* a := database.lift
                  (CloseApproach_init float_unicode cd_to_datetime
                     (dict_zip fields info)) in
      let* r := new_ca a in
      load_approaches_loop fields data' (approaches ++ [r])
  end.

Definition load_approaches (fields : list string)
    (data : list (list (option string))) : M (list nat) :=
  load_approaches_loop fields data [].
End LoadApproaches.
End Loading.

End extract.

(** The composite filter on the data of an approach [a] and of the object
    [n] it refers to. *)
Definition matches (date start_date end_date : option datetime.date_t)
    (distance_min distance_max velocity_min velocity_max : option float)
    (diameter_min diameter_max : option float) (hazardous : option bool)
    (a : CloseApproach) (n : NearEarthObject) : bool :=
  slot date (fun v => datetime.eqb (datetime.date (time a)) v)
  && slot start_date (fun v => datetime.leb v (datetime.date (time a)))
  && slot end_date (fun v => datetime.leb (datetime.date (time a)) v)
  && slot distance_min (fun v => SFleb v (distance a))
  && slot distance_max (fun v => SFleb (distance a) v)
  && slot velocity_min (fun v => SFleb v (velocity a))
  && slot velocity_max (fun v => SFleb (velocity a) v)
  && slot diameter_min (fun v => SFleb v (diameter n))
  && slot diameter_max (fun v => SFleb (diameter n) v)
  && slot hazardous (fun v => Bool.eqb (models.hazardous n) v).

(** The same on an approach of the heap; false outside the heap. *)
Definition matches_at (date start_date end_date : option datetime.date_t)
    (distance_min distance_max velocity_min velocity_max : option float)
    (diameter_min diameter_max : option float) (hazardous : option bool)
    (h : heap) (r : nat) : bool :=
  match ca_objs h !! r with
  | Some a =>
      match neo a with
      | Some o =>
          match neo_objs h !! o with
          | Some n =>
              matches date start_date end_date distance_min distance_max
                velocity_min velocity_max diameter_min diameter_max
                hazardous a n
          | None => false
          end
      | None => false
      end
  | None => false
  end.

(** An approach resolves when its foreign key is the designation of an
    object of the collection. *)
Definition resolves (h : heap) (neos : list nat) (a : nat) : Prop :=
  exists ca k r, ca_objs h !! a = Some ca /\ _designation ca = Some k
                 /\ r ∈ neos /\ key_at designation h r = Some k.

(** A second store over the objects that the first has linked. *)
Definition sample_again : result NEODatabase * heap :=
  NEODatabase_init [0%nat] [0%nat] linked.

(** The strings of the data sets below are ASCII, so that any function
    serves for [float_unicode] on them. *)
Definition any_unicode : string -> result float := fun _ => Raise ValueError.

(** * Properties *)

(** ** The attribute filters and the composite filter *)

Section FilterFacts.
Context {T : Type} `{Comparable T}.

(** One turn of the loop of [Filter.__call__] on an item whose attribute
    can be fetched. *)
Lemma Filter_loop_item (get : heap -> ref -> result T) o v items r h a x :
  get h a = Ok x ->
  Filter_loop (item get (Build_AttributeFilter o v) :: items) r h a =
  Filter_loop items (r && holds o v x) h a.
Proof.
  intros Hget. destruct v as [v|]; simpl.
  - unfold AttributeFilter_call. rewrite Hget. simpl.
    destruct r; reflexivity.
  - rewrite andb_true_r. reflexivity.
Qed.

(** An item without a reference value is skipped, whatever its [get]
    would do. *)
Lemma Filter_loop_absent (get : heap -> ref -> result T) o items r h a :
  Filter_loop (item get (Build_AttributeFilter o None) :: items) r h a =
  Filter_loop items r h a.
Proof. reflexivity. Qed.
End FilterFacts.

Lemma attribute_linked {T} (f : NearEarthObject -> T) h a ca o n :
  ca_objs h !! a = Some ca -> neo ca = Some o -> neo_objs h !! o = Some n ->
  neo_attribute f h a = Ok (f n).
Proof.
  intros Ha Ho Hn. unfold neo_attribute, attribute.
  rewrite Ha. simpl. rewrite Ho, Hn. reflexivity.
Qed.

Lemma attribute_Ok {T} (f : CloseApproach -> T) h a ca :
  ca_objs h !! a = Some ca -> attribute f h a = Ok (f ca).
Proof. intros Ha. unfold attribute. rewrite Ha. reflexivity. Qed.

(** A not-a-number is below, above and equal to nothing. *)
Lemma nan_compare (o : operator.t) (x : float) :
  py_op o nan x = false /\ py_op o x nan = false.
Proof. destruct o, x; split; reflexivity. Qed.

Lemma SFleb_refl (x : float) : x <> nan -> SFleb x x = true.
Proof.
  intros Hx. unfold SFleb, SFcompare.
  destruct x as [s|s| |s m e]; try reflexivity.
  - destruct s; reflexivity.
  - contradiction.
  - rewrite Z.compare_refl. replace (Pos.compare_cont Eq m m) with Eq.
    + destruct s; reflexivity.
    + symmetry. apply Pos.compare_cont_refl.
Qed.

(** [datetime.eqb] is equality of dates, [datetime.leb] their order. *)
Lemma date_eqb_eq (a b : datetime.date_t) :
  datetime.eqb a b = true <-> a = b.
Proof.
  unfold datetime.eqb, datetime.cmp. destruct a as [y m d], b as [y' m' d'].
  simpl. split.
  - destruct (y ?= y') eqn:Hy; try discriminate.
    destruct (m ?= m') eqn:Hm; try discriminate.
    destruct (d ?= d') eqn:Hd; try discriminate.
    apply Z.compare_eq in Hy, Hm, Hd. congruence.
  - intros [= -> -> ->]. rewrite !Z.compare_refl. reflexivity.
Qed.

Lemma date_leb_le (a b : datetime.date_t) :
  datetime.leb a b = true <->
  datetime.year a < datetime.year b \/
  datetime.year a = datetime.year b /\
  (datetime.month a < datetime.month b \/
   datetime.month a = datetime.month b /\ datetime.day a <= datetime.day b).
Proof.
  unfold datetime.leb, datetime.cmp. destruct a as [y m d], b as [y' m' d'].
  simpl.
  destruct (Z.compare_spec y y') as [Hy|Hy|Hy];
    [destruct (Z.compare_spec m m') as [Hm|Hm|Hm];
       [destruct (Z.compare_spec d d') as [Hd|Hd|Hd]| |]| |];
    split; intros Hle; try reflexivity; try discriminate; lia.
Qed.

(** C5: on a linked approach, the composite filter that [create_filters]
    builds returns the conjunction of the comparisons of the slots whose
    reference value is present: [=] for the date and the hazard flag, [>=]
    for the start date and the minima, [<=] for the end date and the
    maxima, each on the attribute of the slot's kind; with no slot
    constrained it is true. *)
Theorem create_filters_call
    (date start_date end_date : option datetime.date_t)
    (distance_min distance_max velocity_min velocity_max : option float)
    (diameter_min diameter_max : option float) (hazardous : option bool)
    (h : heap) (approach : ref) (a : CloseApproach) (o : ref)
    (n : NearEarthObject) :
  ca_objs h !! approach = Some a ->
  neo a = Some o ->
  neo_objs h !! o = Some n ->
  Filter_call
    (create_filters date start_date end_date distance_min distance_max
       velocity_min velocity_max diameter_min diameter_max hazardous)
    h approach =
  Ok (slot date (fun v => datetime.eqb (datetime.date (time a)) v)
      && slot start_date (fun v => datetime.leb v (datetime.date (time a)))
      && slot end_date (fun v => datetime.leb (datetime.date (time a)) v)
      && slot distance_min (fun v => SFleb v (distance a))
      && slot distance_max (fun v => SFleb (distance a) v)
      && slot velocity_min (fun v => SFleb v (velocity a))
      && slot velocity_max (fun v => SFleb (velocity a) v)
      && slot diameter_min (fun v => SFleb v (diameter n))
      && slot diameter_max (fun v => SFleb (diameter n) v)
      && slot hazardous (fun v => Bool.eqb (models.hazardous n) v)).
Proof.
  intros Ha Ho Hn. unfold Filter_call, create_filters, vars.
  cbn [filters.date filters.start_date filters.end_date filters.distance_min
       filters.distance_max filters.velocity_min filters.velocity_max
       filters.diameter_min filters.diameter_max filters.hazardous].
  unfold DateFilter_get, DistanceFilter_get, VelocityFilter_get,
    DiameterFilter_get, HazardousFilter_get.
  rewrite 3 (Filter_loop_item _ _ _ _ _ _ _ _ (attribute_Ok _ _ _ _ Ha)).
  rewrite 2 (Filter_loop_item _ _ _ _ _ _ _ _ (attribute_Ok _ _ _ _ Ha)).
  rewrite 2 (Filter_loop_item _ _ _ _ _ _ _ _ (attribute_Ok _ _ _ _ Ha)).
  rewrite 2 (Filter_loop_item _ _ _ _ _ _ _ _
               (attribute_linked diameter _ _ _ _ _ Ha Ho Hn)).
  rewrite (Filter_loop_item _ _ _ _ _ _ _ _
             (attribute_linked models.hazardous _ _ _ _ _ Ha Ho Hn)).
  reflexivity.
Qed.

Lemma sample_linked : sample = (Ok sample_db, linked).
Proof. vm_compute. reflexivity. Qed.

Lemma create_filters_call_witness :
  (ca_objs linked !! 0%nat = Some (with_neo flyby 0%nat)
   /\ neo (with_neo flyby 0%nat) = Some 0%nat
   /\ neo_objs linked !! 0%nat = Some (with_approach rocky 0%nat))
  /\ Filter_call
       (create_filters None (Some (datetime.Date 2019 12 31)) None None
          (Some (distance flyby)) None None None None (Some false))
       linked 0%nat = Ok true.
Proof.
  split; [repeat split; reflexivity|].
  exact (create_filters_call None (Some (datetime.Date 2019 12 31)) None None
           (Some (distance flyby)) None None None None (Some false)
           linked 0%nat (with_neo flyby 0%nat) 0%nat
           (with_approach rocky 0%nat) eq_refl eq_refl eq_refl).
Defined.

(** ** Iterators: the generator of [query] and the limiter *)

Section IteratorFacts.
Context {S A : Type} `{Iterator S A}.

(** The list an iterator yields depends on its state through [next]
    alone. *)
Lemma collect_next_eq (fuel : nat) (h : heap) (s1 s2 : S) :
  next h s1 = next h s2 ->
  fst <$> collect fuel h s1 = fst <$> collect fuel h s2.
Proof.
  destruct fuel as [|fuel]; simpl; [reflexivity|]. intros ->.
  destruct (next h s2) as [[[x s']|]|e]; reflexivity.
Qed.

Lemma collect_cons (fuel : nat) (h : heap) (s s' : S) (x : A) (l : list A) :
  next h s = Ok (Some (x, s')) ->
  fst <$> collect fuel h s' = Some (Ok l) ->
  fst <$> collect (Datatypes.S fuel) h s = Some (Ok (x :: l)).
Proof.
  intros Hn Hc. simpl. rewrite Hn.
  destruct (collect fuel h s') as [[[l'|e] s'']|]; simpl in *;
    congruence.
Qed.
End IteratorFacts.

(** The generator of [query], run to its end on a filter that answers
    [p]. *)
Lemma collect_query (f : heap -> ref -> result bool) (p : ref -> bool)
    (h : heap) (rest : list ref) :
  (forall r, r ∈ rest -> f h r = Ok (p r)) ->
  forall fuel, (length rest < fuel)%nat ->
  fst <$> collect fuel h {| q_filters := callable f; q_rest := rest |} =
  Some (Ok (List.filter p rest)).
Proof.
  induction rest as [|r rest IH]; intros Hf fuel Hfuel.
  - destruct fuel as [|fuel]; [simpl in Hfuel; lia|]. reflexivity.
  - destruct fuel as [|fuel]; [simpl in Hfuel; lia|].
    assert (Hr : f h r = Ok (p r)) by (apply Hf; left).
    assert (Hrest : forall r', r' ∈ rest -> f h r' = Ok (p r'))
      by (intros r' Hr'; apply Hf; right; exact Hr').
    simpl in Hfuel. simpl List.filter. destruct (p r) eqn:Hp.
    + eapply collect_cons.
      * unfold next, query_iterator. simpl. rewrite Hr. reflexivity.
      * apply IH; [exact Hrest|lia].
    + rewrite <- (IH Hrest (Datatypes.S fuel)) by lia.
      apply collect_next_eq.
      unfold next, query_iterator. simpl. rewrite Hr. reflexivity.
Qed.

(** The first pull runs the loop up to the first approach the filter
    accepts, and no further. *)
Lemma query_next_first (f : filters_arg) (h : heap) (pre post : list ref)
    (x : ref) :
  (forall r, r ∈ pre -> call f h r = Ok false) ->
  call f h x = Ok true ->
  query_next f h (pre ++ x :: post) =
  Ok (Some (x, {| q_filters := f; q_rest := post |})).
Proof.
  induction pre as [|r pre IH]; intros Hpre Hx; simpl.
  - rewrite Hx. reflexivity.
  - rewrite (Hpre r) by left. simpl. apply IH; [|exact Hx].
    intros r' Hr'. apply Hpre. right. exact Hr'.
Qed.

(** C3: for a boolean predicate [p], the generator of [query] yields the
    approaches of the store that satisfy [p], in the order of the store's
    collection; each call of [query] starts at the head of the collection;
    and a pull stops at the first approach that the filter accepts, so that
    the approaches behind it are not looked at (the filter may even raise
    on them). *)
Theorem query_yields_matching (db : NEODatabase) (h : heap)
    (p : heap -> ref -> bool) :
  (forall fuel, (length (_approaches db) < fuel)%nat ->
     fst <$> collect fuel h
               (query db (Some (callable (fun h r => Ok (p h r))))) =
     Some (Ok (List.filter (p h) (_approaches db))))
  /\ (forall f, q_rest (query db f) = _approaches db)
  /\ (forall f pre x post,
        _approaches db = pre ++ x :: post ->
        (forall r, r ∈ pre -> f h r = Ok false) ->
        f h x = Ok true ->
        next h (query db (Some (callable f))) =
        Ok (Some (x, {| q_filters := callable f; q_rest := post |}))).
Proof.
  split; [|split].
  - intros fuel Hfuel. unfold query. apply collect_query; [|exact Hfuel].
    reflexivity.
  - reflexivity.
  - intros f pre x post Hdb Hpre Hx.
    unfold next, query_iterator, query. cbn [q_filters q_rest]. rewrite Hdb.
    apply query_next_first; assumption.
Qed.

Lemma query_yields_matching_witness :
  fst <$> collect 2 linked
            (query sample_db
               (Some (callable (fun h r => Ok (distance_le h nan r))))) =
  Some (Ok [])
  /\ next linked (query sample_db (Some (callable (fun _ _ => Ok true)))) =
     Ok (Some (0%nat,
               {| q_filters := callable (fun _ _ => Ok true);
                  q_rest := [] |})).
Proof.
  pose proof (query_yields_matching sample_db linked
                (fun h r => distance_le h nan r)) as [Hall _].
  pose proof (query_yields_matching sample_db linked (fun _ _ => true))
    as [_ [_ Hfirst]].
  split.
  - apply (Hall 2%nat). simpl. lia.
  - apply (Hfirst (fun _ _ => Ok true) [] 0%nat []).
    + reflexivity.
    + intros r Hr. inversion Hr.
    + reflexivity.
Defined.

(** The composite filter without any criterion accepts every approach,
    linked or not, and the query with it yields the whole collection. *)
Lemma query_unconstrained (db : NEODatabase) (h : heap) (fuel : nat) :
  (length (_approaches db) < fuel)%nat ->
  fst <$> collect fuel h
            (query db
               (Some (callable
                  (Filter_call
                     (create_filters None None None None None
                        None None None None None))))) =
  Some (Ok (_approaches db)).
Proof.
  intros Hfuel. unfold query.
  rewrite (collect_query _ (fun _ => true) h (_approaches db));
    [|reflexivity|exact Hfuel].
  do 2 f_equal. generalize (_approaches db). intros l.
  induction l as [|a l IH]; [reflexivity|]. simpl. rewrite IH. reflexivity.
Qed.

(** C1: [query] called without a filter takes the empty tuple for
    [filters] and calls it on the first approach: on a store that holds an
    approach the first pull raises [TypeError], and only on a store without
    approaches does the generator end normally.  So it does not yield
    every approach; on the sample store it yields none and raises. *)
Theorem query_without_filters (db : NEODatabase) (h : heap) :
  next h (query db None) =
    match _approaches db with
    | [] => Ok None
    | _ :: _ => Raise TypeError
    end
  /\ fst <$> collect 2 linked (query sample_db None) = Some (Raise TypeError).
Proof.
  split; [|reflexivity].
  unfold next, query_iterator, query. cbn [q_filters q_rest].
  destruct (_approaches db); reflexivity.
Qed.

(** The composite filter with [distance_max] alone is [distance <= X]; it
    needs no linked object. *)
Lemma distance_max_call (h : heap) (X : float) (r : ref) (a : CloseApproach) :
  ca_objs h !! r = Some a ->
  Filter_call
    (create_filters None None None None (Some X) None None None None None)
    h r = Ok (SFleb (distance a) X).
Proof.
  intros Ha. unfold Filter_call, create_filters, vars.
  cbn [filters.date filters.start_date filters.end_date filters.distance_min
       filters.distance_max filters.velocity_min filters.velocity_max
       filters.diameter_min filters.diameter_max filters.hazardous].
  rewrite !Filter_loop_absent.
  unfold DistanceFilter_get.
  rewrite (Filter_loop_item _ _ _ _ _ _ _ _ (attribute_Ok _ _ _ _ Ha)).
  rewrite !Filter_loop_absent. reflexivity.
Qed.

(** C8: a distance filter is false on an approach whose distance is
    not-a-number, under each of [<=], [>=] and [==] and for every
    reference value; the query constrained by [distance_max = X] alone
    yields the approaches of the store with [distance <= X], which holds
    when the distance is [X] itself and fails when it is not-a-number. *)
Theorem distance_max_excludes_nan (db : NEODatabase) (h : heap) (X : float) :
  (forall r, r ∈ _approaches db -> is_Some (ca_objs h !! r)) ->
  (forall r a o,
     ca_objs h !! r = Some a -> distance a = nan ->
     AttributeFilter_call DistanceFilter_get
       (Build_AttributeFilter o (Some X)) h r = Ok false)
  /\ (forall fuel, (length (_approaches db) < fuel)%nat ->
        fst <$> collect fuel h
                  (query db
                     (Some (callable
                        (Filter_call
                           (create_filters None None None None (Some X)
                              None None None None None))))) =
        Some (Ok (List.filter (distance_le h X) (_approaches db))))
  /\ (forall r a,
        ca_objs h !! r = Some a -> distance a = X -> X <> nan ->
        distance_le h X r = true)
  /\ (forall r a,
        ca_objs h !! r = Some a -> distance a = nan ->
        distance_le h X r = false).
Proof.
  intros Hvalid. repeat split.
  - intros r a o Ha Hnan.
    unfold AttributeFilter_call, DistanceFilter_get.
    rewrite (attribute_Ok _ _ _ _ Ha). simpl. rewrite Hnan.
    f_equal. apply nan_compare.
  - intros fuel Hfuel. unfold query. apply collect_query; [|exact Hfuel].
    intros r Hr. destruct (Hvalid r Hr) as [a Ha].
    rewrite (distance_max_call _ _ _ _ Ha).
    unfold distance_le. rewrite Ha. reflexivity.
  - intros r a Ha Hd HX. unfold distance_le. rewrite Ha, Hd.
    apply SFleb_refl. exact HX.
  - intros r a Ha Hnan. unfold distance_le. rewrite Ha, Hnan. reflexivity.
Qed.

Lemma distance_max_excludes_nan_witness :
  (forall r, r ∈ _approaches sample_db -> is_Some (ca_objs linked !! r))
  /\ fst <$> collect 2 linked
               (query sample_db
                  (Some (callable
                     (Filter_call
                        (create_filters None None None None
                           (Some (distance flyby))
                           None None None None None))))) =
     Some (Ok [0%nat]).
Proof.
  assert (Hvalid : forall r, r ∈ _approaches sample_db ->
                             is_Some (ca_objs linked !! r)).
  { intros r Hr. apply list_elem_of_singleton in Hr. subst r.
    exists (with_neo flyby 0%nat). reflexivity. }
  split; [exact Hvalid|].
  destruct (distance_max_excludes_nan sample_db linked (distance flyby) Hvalid)
    as [_ [Hq _]].
  apply (Hq 2%nat). simpl. lia.
Defined.

Section LimitFacts.
Context {S A : Type} `{Iterator S A}.

Lemma islice_next (h : heap) (s : islice_t S) :
  next h s =
  if (match stop s with Some n => n <=? cnt s | None => false end)
  then Ok None
  else match next h (it s) with
       | Ok (Some (x, it')) =>
           Ok (Some (x, {| it := it'; cnt := cnt s + 1; stop := stop s |}))
       | Ok None => Ok None
       | Raise e => Raise e
       end.
Proof. reflexivity. Qed.

(** A slice without a stop passes its source on. *)
Lemma collect_islice_None (h : heap) (fuel : nat) :
  forall (seq seq' : S) (l : list A) (c : Z),
  collect fuel h seq = Some (Ok l, seq') ->
  exists s', collect fuel h {| it := seq; cnt := c; stop := None |} =
             Some (Ok l, s')
             /\ it s' = seq'.
Proof.
  induction fuel as [|fuel IH]; intros seq seq' l c; simpl; [discriminate|].
  rewrite islice_next. cbn [stop it cnt].
  destruct (next h seq) as [[[x seq1]|]|e].
  - destruct (collect fuel h seq1) as [[[l1|e1] seq2]|] eqn:Hc;
      intros [= <- <-].
    destruct (IH _ _ _ (c + 1) Hc) as [s' [Hs' Hit]].
    exists s'. rewrite Hs'. split; [reflexivity|exact Hit].
  - intros [= <- <-]. eexists. split; reflexivity.
  - discriminate.
Qed.

(** A slice that may still pass [k] elements on passes the first [k]
    elements of its source on, and leaves the source after them. *)
Lemma collect_islice_Some (h : heap) (fuel : nat) :
  forall (seq seq' : S) (l : list A) (c n : Z),
  c <= n ->
  collect fuel h seq = Some (Ok l, seq') ->
  exists s', collect fuel h {| it := seq; cnt := c; stop := Some n |} =
             Some (Ok (take (Z.to_nat (n - c)) l), s')
             /\ advance (Nat.min (Z.to_nat (n - c)) (length l)) h seq =
                Some (it s').
Proof.
  induction fuel as [|fuel IH]; intros seq seq' l c n Hc; simpl;
    [discriminate|].
  rewrite islice_next. cbn [stop it cnt].
  destruct (Z.leb_spec n c) as [Hle|Hlt].
  - replace (n - c) with 0 by lia. intros _. simpl.
    eexists. split; reflexivity.
  - destruct (next h seq) as [[[x seq1]|]|e] eqn:Hnext.
    + destruct (collect fuel h seq1) as [[[l1|e1] seq2]|] eqn:Hcoll;
        intros [= <- <-].
      destruct (IH _ _ _ (c + 1) n ltac:(lia) Hcoll) as [s' [Hs' Hadv]].
      exists s'. rewrite Hs'.
      replace (Z.to_nat (n - c))
        with (Datatypes.S (Z.to_nat (n - (c + 1)))) by lia.
      simpl. rewrite Hnext. split; [reflexivity|exact Hadv].
    + intros [= <- <-]. eexists. rewrite take_nil. split; [reflexivity|].
      rewrite Nat.min_0_r. reflexivity.
    + discriminate.
Qed.
End LimitFacts.

(** C7 as the code has it: with [n] absent or zero the limited stream is
    the source, unmodified; with [0 < n <= sys.maxsize] it is the first
    [min n (length l)] elements of the source, and the source is left
    right behind them; and a larger [n] is refused by [islice] with a
    [ValueError]. *)
Theorem limit_prefix {S A : Type} `{Iterator S A} (h : heap) (fuel : nat)
    (seq seq' : S) (l : list A) :
  collect fuel h seq = Some (Ok l, seq') ->
  (forall n, n = None \/ n = Some 0 ->
     exists s s', limit seq n = Ok s
                  /\ collect fuel h s = Some (Ok l, s') /\ it s' = seq')
  /\ (forall n, 0 < n <= sys_maxsize ->
        exists s s', limit seq (Some n) = Ok s
                     /\ collect fuel h s =
                        Some (Ok (take (Nat.min (Z.to_nat n) (length l)) l), s')
                     /\ advance (Nat.min (Z.to_nat n) (length l)) h seq =
                        Some (it s'))
  /\ (forall n, sys_maxsize < n -> limit seq (Some n) = Raise ValueError).
Proof.
  intros Hseq. split; [|split].
  - intros n Hn.
    destruct (collect_islice_None h fuel seq seq' l 0 Hseq) as [s' [Hs' Hit]].
    exists {| it := seq; cnt := 0; stop := None |}, s'.
    split; [|split; assumption].
    destruct Hn as [-> | ->]; reflexivity.
  - intros n [Hpos Hmax].
    destruct (collect_islice_Some h fuel seq seq' l 0 n ltac:(lia) Hseq)
      as [s' [Hs' Hadv]].
    exists {| it := seq; cnt := 0; stop := Some n |}, s'.
    rewrite Z.sub_0_r in Hs', Hadv. split; [|split].
    + unfold limit, islice. rewrite decide_False by (intros [= ->]; lia).
      destruct (Z.leb_spec 0 n); [|lia].
      destruct (Z.leb_spec n sys_maxsize); [|lia]. reflexivity.
    + rewrite Hs'. do 3 f_equal.
      destruct (Nat.min_spec (Z.to_nat n) (length l)) as [[_ ->]|[Hge ->]];
        [reflexivity|].
      rewrite !take_ge; [reflexivity|lia|lia].
    + exact Hadv.
  - intros n Hn. unfold limit, islice.
    rewrite decide_False by (intros [= ->]; unfold sys_maxsize in Hn; lia).
    destruct (Z.leb_spec n sys_maxsize); [lia|].
    rewrite andb_false_r. reflexivity.
Qed.

Lemma limit_prefix_witness :
  collect 6 linked [1; 2; 3; 4; 5] = Some (Ok [1; 2; 3; 4; 5], [])
  /\ (exists s s', limit [1; 2; 3; 4; 5] (Some 3) = Ok s
                   /\ collect 6 linked s = Some (Ok [1; 2; 3], s')
                   /\ advance 3 linked [1; 2; 3; 4; 5] = Some (it s'))
  /\ (exists s s', limit [1; 2; 3; 4; 5] (Some 10) = Ok s
                   /\ collect 6 linked s = Some (Ok [1; 2; 3; 4; 5], s')
                   /\ advance 5 linked [1; 2; 3; 4; 5] = Some (it s'))
  /\ (exists s s', limit [1; 2; 3; 4; 5] (Some 0) = Ok s
                   /\ collect 6 linked s = Some (Ok [1; 2; 3; 4; 5], s')
                   /\ it s' = []).
Proof.
  assert (Hseq : collect 6 linked [1; 2; 3; 4; 5] =
                 Some (Ok [1; 2; 3; 4; 5], [])) by reflexivity.
  destruct (limit_prefix linked 6 [1; 2; 3; 4; 5] [] [1; 2; 3; 4; 5] Hseq)
    as [Hall [Hpre _]].
  split; [exact Hseq|]. split; [|split].
  - apply (Hpre 3). unfold sys_maxsize. lia.
  - apply (Hpre 10). unfold sys_maxsize. lia.
  - apply (Hall (Some 0)). right. reflexivity.
Defined.

(** The claim of C7 fails for a limit above [sys.maxsize]: the first three
    elements of a list are not what [limit] gives for [n = 2^63], which is
    a [ValueError]. *)
Lemma limit_above_maxsize :
  ~ exists s s',
      limit [1; 2; 3] (Some (2 ^ 63)) = Ok s
      /\ collect 4 linked s =
         Some (Ok (take (Nat.min (Z.to_nat (2 ^ 63)) 3) [1; 2; 3]), s').
Proof. intros [s [s' [Hlimit _]]]. vm_compute in Hlimit. discriminate. Qed.

(** C10: a negative limit makes [limit] raise [ValueError] at the call;
    no stream is returned, neither the whole source nor an empty one. *)
Theorem limit_negative {S : Type} (iterator : S) (n : Z) :
  n < 0 -> limit iterator (Some n) = Raise ValueError.
Proof.
  intros Hn. unfold limit, islice.
  rewrite decide_False by (intros [= ->]; lia).
  destruct (Z.leb_spec 0 n); [lia|]. reflexivity.
Qed.

Lemma limit_negative_witness :
  -1 < 0 /\ limit [1; 2; 3] (Some (-1)) = Raise ValueError.
Proof. split; [lia|]. apply (limit_negative [1; 2; 3] (-1)). lia. Defined.

(** ** The constructors of the records *)

Lemma py_float_nan (float_unicode : string -> result float) :
  py_float float_unicode "nan" = Ok nan.
Proof. reflexivity. Qed.


(** On an ASCII string [float] raises nothing but [ValueError]. *)
Lemma py_float_ascii_raises (s : string) (e : exn) :
  py_float_ascii s = Raise e -> e = ValueError.
Proof.
  unfold py_float_ascii.
  destruct (sign (strip (list_ascii_of_string s))) as [neg body].
  destruct (String.eqb _ "nan"); [discriminate|].
  destruct (String.eqb _ "inf" || String.eqb _ "infinity"); [discriminate|].
  destruct (number body) as [[[m k] rest]|]; [|congruence].
  destruct (exponent rest) as [[e' [|c rest']]|]; congruence.
Qed.

Section Constructors.
Variable float_unicode : string -> result float.
Variable cd_to_datetime : option string -> result datetime.datetime.

End Constructors.



(** ** The linked store *)

(** *** The dictionary comprehension *)

Lemma dict_comp_Ok (key : NearEarthObject -> option string) (neos : list ref) :
  forall i d h d' h',
  dict_comp key i neos d h = (Ok d', h') ->
  h' = h
  /\ (forall r, r ∈ neos -> is_Some (neo_objs h !! r))
  /\ d' = index_of i (map (key_at key h) neos) d.
Proof.
  induction neos as [|r neos IH]; intros i d h d' h'; simpl.
  - intros [= <- <-]. repeat split. intros r Hr. inversion Hr.
  - unfold bindM, read_neo, key_at.
    destruct (neo_objs h !! r) as [n|] eqn:Hr; [|discriminate].
    assert (Hin : forall r', r' ∈ r :: neos ->
                  (forall r'', r'' ∈ neos -> is_Some (neo_objs h !! r'')) ->
                  is_Some (neo_objs h !! r')).
    { intros r' Hr' Hneos. apply elem_of_cons in Hr' as [-> | Hr'];
        [rewrite Hr; eexists; reflexivity|apply Hneos; exact Hr']. }
    destruct (key n) as [k|]; intros Hcomp;
      destruct (IH _ _ _ _ _ Hcomp) as [-> [Hvalid ->]];
      repeat split; intros r' Hr'; apply Hin; assumption.
Qed.

Lemma dict_comp_valid (key : NearEarthObject -> option string)
    (neos : list ref) (h : heap) :
  (forall r, r ∈ neos -> is_Some (neo_objs h !! r)) ->
  forall i d,
  dict_comp key i neos d h = (Ok (index_of i (map (key_at key h) neos) d), h).
Proof.
  induction neos as [|r neos IH]; intros Hvalid i d; simpl; [reflexivity|].
  unfold bindM, read_neo, key_at.
  destruct (Hvalid r) as [n Hn]; [left|]. rewrite Hn.
  assert (Hneos : forall r', r' ∈ neos -> is_Some (neo_objs h !! r'))
    by (intros r' Hr'; apply Hvalid; right; exact Hr').
  destruct (key n); apply IH; exact Hneos.
Qed.

(** A key that no object has stays as it was in the dictionary. *)
Lemma index_of_absent (keys : list (option string)) (k : string) :
  Some k ∉ keys ->
  forall i d, index_of i keys d !! k = d !! k.
Proof.
  induction keys as [|[k0|] keys IH]; intros Hk i d; simpl.
  - reflexivity.
  - rewrite IH by (intros Hin; apply Hk; right; exact Hin).
    apply lookup_insert_ne. intros ->. apply Hk. left.
  - apply IH. intros Hin. apply Hk. right. exact Hin.
Qed.

(** A key that some object has is in the dictionary, at the last position
    that has it. *)
Lemma index_of_present (keys : list (option string)) (k : string) :
  Some k ∈ keys ->
  forall i d, exists p,
    index_of i keys d !! k = Some (i + p)%nat
    /\ keys !! p = Some (Some k)
    /\ (forall q, (p < q)%nat -> keys !! q <> Some (Some k)).
Proof.
  induction keys as [|k0 keys IH]; intros Hk i d; [inversion Hk|].
  destruct (decide (Some k ∈ keys)) as [Hin|Hnotin].
  - assert (Hrec : forall d0, exists p,
               index_of (S i) keys d0 !! k = Some (i + p)%nat
               /\ (k0 :: keys) !! p = Some (Some k)
               /\ (forall q, (p < q)%nat ->
                             (k0 :: keys) !! q <> Some (Some k))).
    { intros d0. destruct (IH Hin (S i) d0) as [p [Hp [Hat Hlast]]].
      exists (S p). split; [|split].
      - rewrite Hp. f_equal. lia.
      - exact Hat.
      - intros [|q] Hq; [lia|]. simpl. apply Hlast. lia. }
    destruct k0 as [k0|]; simpl; apply Hrec.
  - apply elem_of_cons in Hk as [<- | Hk]; [|contradiction].
    exists 0%nat. simpl. rewrite (index_of_absent _ _ Hnotin).
    rewrite lookup_insert_eq, Nat.add_0_r. split; [reflexivity|].
    split; [reflexivity|].
    intros [|q] Hq; [lia|]. simpl. intros Hat. apply Hnotin.
    apply list_elem_of_lookup. exists q. exact Hat.
Qed.

(** An entry of the dictionary that was not in it before is the position
    of an object with that key. *)
Lemma index_of_sound (keys : list (option string)) (k : string) (j : nat) :
  forall i d,
  index_of i keys d !! k = Some j ->
  d !! k = Some j /\ Some k ∉ keys
  \/ exists p, j = (i + p)%nat /\ keys !! p = Some (Some k).
Proof.
  intros i d Hj. destruct (decide (Some k ∈ keys)) as [Hin|Hnotin].
  - right. destruct (index_of_present _ _ Hin i d) as [p [Hp [Hat _]]].
    exists p. split; [congruence|exact Hat].
  - left. rewrite (index_of_absent _ _ Hnotin) in Hj. split; assumption.
Qed.

(** *** The linking loop *)

(** One turn of the loop, as a case analysis on the heap. *)
Lemma link_cons (self : NEODatabase) (a : ref) (rest : list ref) (h : heap) :
  link self (a :: rest) h =
  match ca_objs h !! a with
  | None => (Raise Dangling, h)
  | Some ca =>
      match dict_getitem (_neosByDes self) (_designation ca) with
      | Raise e => (Raise e, h)
      | Ok i =>
          match _neos self !! i with
          | None => (Raise IndexError, h)
          | Some o =>
              match neo_objs h !! o with
              | None =>
                  (Raise Dangling,
                   Heap (neo_objs h) (<[a := with_neo ca o]> (ca_objs h)))
              | Some n =>
                  link self rest
                    (Heap (<[o := with_approach n a]> (neo_objs h))
                          (<[a := with_neo ca o]> (ca_objs h)))
              end
          end
      end
  end.
Proof.
  simpl. unfold bindM, read_ca, lift, list_getitem, set_neo.
  destruct (ca_objs h !! a) as [ca|] eqn:Ha; [|reflexivity].
  destruct (dict_getitem (_neosByDes self) (_designation ca)) as [i|e];
    [|reflexivity].
  destruct (_neos self !! i) as [o|]; [|reflexivity].
  rewrite Ha. cbn [ca_objs neo_objs]. rewrite lookup_insert_eq.
  cbn [neo with_neo]. unfold approaches_append. cbn [ca_objs neo_objs].
  destruct (neo_objs h !! o) as [n|]; reflexivity.
Qed.

Lemma frame_refl (h : heap) : frame h h.
Proof.
  split; intros r.
  - destruct (neo_objs h !! r); [repeat split|exact I].
  - destruct (ca_objs h !! r); [repeat split|exact I].
Qed.

Lemma frame_trans (h1 h2 h3 : heap) : frame h1 h2 -> frame h2 h3 -> frame h1 h3.
Proof.
  intros [Hn12 Hc12] [Hn23 Hc23]. split; intros r.
  - specialize (Hn12 r). specialize (Hn23 r).
    destruct (neo_objs h1 !! r), (neo_objs h2 !! r), (neo_objs h3 !! r);
      try contradiction; try exact I.
    unfold same_neo in *. intuition congruence.
  - specialize (Hc12 r). specialize (Hc23 r).
    destruct (ca_objs h1 !! r), (ca_objs h2 !! r), (ca_objs h3 !! r);
      try contradiction; try exact I.
    unfold same_ca in *. intuition congruence.
Qed.

(** Setting [neo] on an approach of the heap, and appending to the
    [approaches] of an object of the heap, stay within the frame. *)
Lemma frame_set_neo (h : heap) (a : ref) (ca : CloseApproach) (o : ref) :
  ca_objs h !! a = Some ca ->
  frame h (Heap (neo_objs h) (<[a := with_neo ca o]> (ca_objs h))).
Proof.
  intros Ha. split; intros r; cbn [neo_objs ca_objs].
  - destruct (neo_objs h !! r); [repeat split|exact I].
  - destruct (decide (a = r)) as [<-|Hne].
    + rewrite lookup_insert_eq, Ha. repeat split.
    + rewrite lookup_insert_ne by exact Hne.
      destruct (ca_objs h !! r); [repeat split|exact I].
Qed.

Lemma frame_append (h : heap) (o : ref) (n : NearEarthObject) (a : ref) :
  neo_objs h !! o = Some n ->
  frame h (Heap (<[o := with_approach n a]> (neo_objs h)) (ca_objs h)).
Proof.
  intros Ho. split; intros r; cbn [neo_objs ca_objs].
  - destruct (decide (o = r)) as [<-|Hne].
    + rewrite lookup_insert_eq, Ho. repeat split.
    + rewrite lookup_insert_ne by exact Hne.
      destruct (neo_objs h !! r); [repeat split|exact I].
  - destruct (ca_objs h !! r); [repeat split|exact I].
Qed.

Lemma frame_step (h : heap) (a o : ref) (ca : CloseApproach)
    (n : NearEarthObject) :
  ca_objs h !! a = Some ca -> neo_objs h !! o = Some n ->
  frame h (Heap (<[o := with_approach n a]> (neo_objs h))
                (<[a := with_neo ca o]> (ca_objs h))).
Proof.
  intros Ha Ho.
  apply (frame_trans _ (Heap (neo_objs h) (<[a := with_neo ca o]> (ca_objs h)))).
  - apply frame_set_neo. exact Ha.
  - apply (frame_append (Heap (neo_objs h) _) o n a). exact Ho.
Qed.

(** The loop stays within the frame, however it ends. *)
Lemma link_frame (self : NEODatabase) (approaches : list ref) :
  forall h r h', link self approaches h = (r, h') -> frame h h'.
Proof.
  induction approaches as [|a rest IH]; intros h r h'.
  - intros [= <- <-]. apply frame_refl.
  - rewrite link_cons.
    destruct (ca_objs h !! a) as [ca|] eqn:Ha;
      [|intros [= <- <-]; apply frame_refl].
    destruct (dict_getitem _ _) as [i|e];
      [|intros [= <- <-]; apply frame_refl].
    destruct (_neos self !! i) as [o|];
      [|intros [= <- <-]; apply frame_refl].
    destruct (neo_objs h !! o) as [n|] eqn:Ho.
    + intros Hlink. eapply frame_trans; [|eapply IH; exact Hlink].
      apply frame_step; assumption.
    + intros [= <- <-]. apply frame_set_neo. exact Ha.
Qed.

(** The resolution of an approach reads what the frame keeps. *)
Lemma target_frame (self : NEODatabase) (h h' : heap) (a : ref) :
  frame h h' -> target self h' a = target self h a.
Proof.
  intros [_ Hca]. unfold target. specialize (Hca a).
  destruct (ca_objs h !! a) as [ca|], (ca_objs h' !! a) as [ca'|];
    try contradiction; [|reflexivity].
  destruct Hca as [-> _]. reflexivity.
Qed.

(** What a run of the loop that ends well has done: every approach it went
    through refers to the object it resolves to, the other approaches are
    as before, and every object has got, behind the approaches it had, the
    approaches of the run that resolve to it, in the order of the run. *)
Lemma link_Ok (self : NEODatabase) (approaches : list ref) :
  forall h h',
  link self approaches h = (Ok tt, h') ->
  (forall a, a ∈ approaches ->
     neo_of h' a = target self h a /\ is_Some (target self h a))
  /\ (forall a, a ∉ approaches -> neo_of h' a = neo_of h a)
  /\ (forall O n, neo_objs h !! O = Some n ->
        exists n', neo_objs h' !! O = Some n'
                   /\ models.approaches n' =
                      models.approaches n
                      ++ filter (fun a => target self h a = Some O) approaches).
Proof.
  induction approaches as [|a rest IH]; intros h h'.
  - intros [= <-]. split; [|split].
    + intros a Ha. inversion Ha.
    + reflexivity.
    + intros O n HO. exists n. rewrite app_nil_r. split; [exact HO|reflexivity].
  - rewrite link_cons.
    destruct (ca_objs h !! a) as [ca|] eqn:Ha; [|discriminate].
    destruct (dict_getitem _ _) as [i|e] eqn:Hi; [|discriminate].
    destruct (_neos self !! i) as [o|] eqn:Ho; [|discriminate].
    destruct (neo_objs h !! o) as [n|] eqn:Hn; [|discriminate].
    set (h1 := Heap (<[o := with_approach n a]> (neo_objs h))
                    (<[a := with_neo ca o]> (ca_objs h))).
    intros Hlink. destruct (IH _ _ Hlink) as [Hin [Hout Happ]].
    assert (Hframe : frame h h1) by (apply frame_step; assumption).
    assert (Htarget : target self h a = Some o).
    { unfold target. rewrite Ha, Hi. exact Ho. }
    assert (Hmid : neo_of h1 a = Some o).
    { unfold neo_of, h1. cbn [ca_objs]. rewrite lookup_insert_eq. reflexivity. }
    split; [|split].
    + intros a' Ha'. destruct (decide (a' ∈ rest)) as [Hrest|Hrest].
      * destruct (Hin a' Hrest) as [Hneo Hsome].
        rewrite (target_frame self h h1 a' Hframe) in Hneo, Hsome.
        split; assumption.
      * apply elem_of_cons in Ha' as [-> | Ha']; [|contradiction].
        rewrite (Hout a Hrest), Hmid, Htarget. split; [reflexivity|].
        eexists; reflexivity.
    + intros a' Ha'. rewrite Hout by (intros Hrest; apply Ha'; right; exact Hrest).
      unfold neo_of, h1. cbn [ca_objs]. rewrite lookup_insert_ne; [reflexivity|].
      intros ->. apply Ha'. left.
    + intros O nO HO. rewrite filter_cons.
      assert (Hfilter : filter (fun a0 => target self h1 a0 = Some O) rest =
                        filter (fun a0 => target self h a0 = Some O) rest).
      { apply list_filter_iff. intros a0.
        rewrite (target_frame self h h1 a0 Hframe). reflexivity. }
      destruct (decide (o = O)) as [<-|Hne].
      * destruct (Happ o (with_approach n a)) as [n' [Hn' Happ']].
        { unfold h1. cbn [neo_objs]. apply lookup_insert_eq. }
        exists n'. split; [exact Hn'|]. rewrite Happ', Hfilter.
        rewrite decide_True by exact Htarget.
        assert (nO = n) as -> by congruence.
        cbn [models.approaches with_approach]. rewrite <- app_assoc.
        reflexivity.
      * destruct (Happ O nO) as [n' [Hn' Happ']].
        { unfold h1. cbn [neo_objs]. rewrite lookup_insert_ne by exact Hne.
          exact HO. }
        exists n'. split; [exact Hn'|]. rewrite Happ', Hfilter.
        rewrite decide_False by (rewrite Htarget; congruence).
        reflexivity.
Qed.

Lemma filter_ext_elem {A} (P Q : A -> Prop) `{forall x, Decision (P x)}
    `{forall x, Decision (Q x)} (l : list A) :
  (forall x, x ∈ l -> P x <-> Q x) -> filter P l = filter Q l.
Proof.
  induction l as [|x l IH]; intros Hl; [reflexivity|].
  rewrite !filter_cons.
  rewrite IH by (intros y Hy; apply Hl; right; exact Hy).
  destruct (decide (P x)) as [HP|HP], (decide (Q x)) as [HQ|HQ];
    try reflexivity; exfalso;
    [apply HQ|apply HP]; apply (Hl x); try left; assumption.
Qed.

(** The constructor runs the two comprehensions on the heap as it gets it
    and then the loop. *)
Lemma NEODatabase_init_Ok (neos approaches : list ref) (h : heap)
    (db : NEODatabase) (h' : heap) :
  NEODatabase_init neos approaches h = (Ok db, h') ->
  db = {| _neos := neos; _approaches := approaches;
          _neosByDes := index_of 0 (map (key_at designation h) neos) ∅;
          _neosByName := index_of 0 (map (key_at name h) neos) ∅ |}
  /\ (forall r, r ∈ neos -> is_Some (neo_objs h !! r))
  /\ link db approaches h = (Ok tt, h').
Proof.
  unfold NEODatabase_init, bindM.
  destruct (dict_comp designation 0 neos ∅ h) as [[byDes|e] h1] eqn:Hdes;
    [|discriminate].
  destruct (dict_comp_Ok _ _ _ _ _ _ _ Hdes) as [-> [Hvalid ->]].
  destruct (dict_comp name 0 neos ∅ h) as [[byName|e] h2] eqn:Hname;
    [|discriminate].
  destruct (dict_comp_Ok _ _ _ _ _ _ _ Hname) as [-> [_ ->]].
  destruct (link _ approaches h) as [[[]|e] h3] eqn:Hlink; [|discriminate].
  intros [= <- <-]. repeat split; assumption.
Qed.

(** C2 as the code has it: after construction on unlinked objects, each
    object of the store has, for its [approaches], the approaches of the
    input that refer to it, in the order of the input: every approach in
    [O.approaches] refers to [O], every approach of the input that refers
    to [O] is in [O.approaches], as many times as the input holds it, and
    so exactly once when the input holds no approach twice. *)
Theorem linked_both_ways (neos approaches : list nat) (h : heap)
    (db : NEODatabase) (h' : heap) :
  NEODatabase_init neos approaches h = (Ok db, h') ->
  (forall O n, O ∈ neos -> neo_objs h !! O = Some n ->
               models.approaches n = []) ->
  _neos db = neos /\ _approaches db = approaches
  /\ forall O, O ∈ _neos db ->
       exists n', neo_objs h' !! O = Some n'
         /\ (forall a, a ∈ models.approaches n' -> neo_of h' a = Some O)
         /\ (forall a, a ∈ _approaches db -> neo_of h' a = Some O ->
                       a ∈ models.approaches n')
         /\ models.approaches n' =
            filter (fun a => neo_of h' a = Some O) (_approaches db)
         /\ (NoDup (_approaches db) -> NoDup (models.approaches n'))
         /\ (forall a, neo_of h' a = Some O ->
               length (filter (fun x => x = a) (models.approaches n')) =
               length (filter (fun x => x = a) (_approaches db))).
Proof.
  intros Hinit Hpre.
  destruct (NEODatabase_init_Ok _ _ _ _ _ Hinit) as [Hdb [Hvalid Hlink]].
  destruct (link_Ok _ _ _ _ Hlink) as [Hin [_ Happ]].
  assert (Hneos : _neos db = neos) by (rewrite Hdb; reflexivity).
  assert (Happroaches : _approaches db = approaches)
    by (rewrite Hdb; reflexivity).
  rewrite Hneos, Happroaches. split; [reflexivity|]. split; [reflexivity|].
  intros O HO. destruct (Hvalid O HO) as [n Hn].
  destruct (Happ O n Hn) as [n' [Hn' Hlist]].
  rewrite (Hpre O n HO Hn) in Hlist. simpl in Hlist.
  assert (Heq : models.approaches n' =
                filter (fun a => neo_of h' a = Some O) approaches).
  { rewrite Hlist. apply filter_ext_elem. intros a Ha.
    destruct (Hin a Ha) as [-> _]. reflexivity. }
  exists n'. split; [exact Hn'|]. rewrite Heq.
  split; [|split; [|split; [|split]]].
  - intros a Ha. apply list_elem_of_filter in Ha as [Ha _]. exact Ha.
  - intros a Ha Hneo. apply list_elem_of_filter. split; assumption.
  - reflexivity.
  - intros Hnodup. apply NoDup_filter. exact Hnodup.
  - intros a Hneo. rewrite list_filter_filter. f_equal.
    apply filter_ext_elem. intros x _. split; [intros [Hx _]; exact Hx|].
    intros ->. split; [reflexivity|exact Hneo].
Qed.

Lemma linked_both_ways_witness :
  (NEODatabase_init [0%nat] [0%nat] unlinked = (Ok sample_db, linked)
   /\ forall O n, O ∈ [0%nat] -> neo_objs unlinked !! O = Some n ->
                  models.approaches n = [])
  /\ exists n', neo_objs linked !! 0%nat = Some n'
       /\ models.approaches n' =
          filter (fun a => neo_of linked a = Some 0%nat) [0%nat].
Proof.
  assert (Hpre : forall O n, O ∈ [0%nat] -> neo_objs unlinked !! O = Some n ->
                             models.approaches n = []).
  { intros O n HO. apply list_elem_of_singleton in HO. subst O.
    intros [= <-]. reflexivity. }
  split; [split; [exact sample_linked|exact Hpre]|].
  destruct (linked_both_ways [0%nat] [0%nat] unlinked sample_db linked
              sample_linked Hpre) as [_ [_ Hall]].
  destruct (Hall 0%nat) as [n' [Hn' [_ [_ [Heq _]]]]]; [left|].
  exists n'. split; [exact Hn'|exact Heq].
Defined.

(** The claim of C2 fails on a collection that holds an approach twice:
    the constructor appends the approach at each of its occurrences, so
    that the object lists it twice. *)
Lemma approach_twice_is_listed_twice :
  ~ forall (neos approaches : list nat) (h : heap) (db : NEODatabase)
      (h' : heap),
      NEODatabase_init neos approaches h = (Ok db, h') ->
      (forall O n, O ∈ neos -> neo_objs h !! O = Some n ->
                   models.approaches n = []) ->
      forall O n' a,
        O ∈ _neos db -> neo_objs h' !! O = Some n' ->
        a ∈ _approaches db -> neo_of h' a = Some O ->
        length (filter (fun x => x = a) (models.approaches n')) = 1%nat.
Proof.
  intros Hclaim.
  assert (Hinit :
    NEODatabase_init [0%nat] [0%nat; 0%nat] unlinked =
    (Ok {| _neos := [0%nat]; _approaches := [0%nat; 0%nat];
           _neosByDes := {[ "A1"%string := 0%nat ]};
           _neosByName := {[ "Rocky"%string := 0%nat ]} |},
     Heap {[ 0%nat := with_approach (with_approach rocky 0%nat) 0%nat ]}
          {[ 0%nat := with_neo flyby 0%nat ]}))
    by (vm_compute; reflexivity).
  assert (Hpre : forall O n, O ∈ [0%nat] -> neo_objs unlinked !! O = Some n ->
                             models.approaches n = []).
  { intros O n HO. apply list_elem_of_singleton in HO. subst O.
    intros [= <-]. reflexivity. }
  specialize (Hclaim _ _ _ _ _ Hinit Hpre 0%nat
                (with_approach (with_approach rocky 0%nat) 0%nat) 0%nat).
  assert (Hlen : length (filter (fun x => x = 0%nat)
                           (models.approaches
                              (with_approach (with_approach rocky 0%nat) 0%nat)))
                 = 1%nat).
  { apply Hclaim; [left|reflexivity|left|reflexivity]. }
  vm_compute in Hlen. discriminate.
Qed.


(** *** Failure of the construction *)

Lemma dict_getitem_raises (d : gmap string nat) (k : option string) (e : exn) :
  dict_getitem d k = Raise e -> e = KeyError.
Proof.
  unfold dict_getitem. destruct k as [s|]; [destruct (d !! s)|]; congruence.
Qed.

Lemma dict_getitem_Ok (d : gmap string nat) (k : option string) (i : nat) :
  dict_getitem d k = Ok i -> exists s, k = Some s /\ d !! s = Some i.
Proof.
  unfold dict_getitem. destruct k as [s|]; [|discriminate].
  destruct (d !! s) as [j|] eqn:Hs; [|discriminate].
  intros [= <-]. exists s. split; [reflexivity|exact Hs].
Qed.

Lemma frame_ca (h h' : heap) (a : ref) (ca : CloseApproach) :
  frame h h' -> ca_objs h !! a = Some ca ->
  exists ca', ca_objs h' !! a = Some ca' /\ _designation ca' = _designation ca.
Proof.
  intros [_ Hca] Ha. specialize (Hca a). rewrite Ha in Hca.
  destruct (ca_objs h' !! a) as [ca'|]; [|contradiction].
  exists ca'. split; [reflexivity|apply Hca].
Qed.

Lemma frame_neo (h h' : heap) (r : ref) (n : NearEarthObject) :
  frame h h' -> neo_objs h !! r = Some n ->
  exists n', neo_objs h' !! r = Some n' /\ same_neo n n'.
Proof.
  intros [Hneo _] Hr. specialize (Hneo r). rewrite Hr in Hneo.
  destruct (neo_objs h' !! r) as [n'|]; [|contradiction].
  exists n'. split; [reflexivity|exact Hneo].
Qed.

(** With an index whose positions are in the list of objects, the loop
    raises [KeyError] as soon as one of its approaches does not resolve. *)
Lemma link_KeyError (self : NEODatabase) (approaches : list ref) :
  (forall k i, _neosByDes self !! k = Some i -> is_Some (_neos self !! i)) ->
  forall h,
  (forall r, r ∈ _neos self -> is_Some (neo_objs h !! r)) ->
  (forall a, a ∈ approaches -> is_Some (ca_objs h !! a)) ->
  (exists a ca, a ∈ approaches /\ ca_objs h !! a = Some ca
                /\ dict_getitem (_neosByDes self) (_designation ca) =
                   Raise KeyError) ->
  exists h', link self approaches h = (Raise KeyError, h').
Proof.
  intros Hrange.
  induction approaches as [|a0 rest IH]; intros h Hneos Hcas Hbad.
  - destruct Hbad as [a [ca [Ha _]]]. inversion Ha.
  - rewrite link_cons.
    destruct (Hcas a0) as [ca0 Ha0]; [left|]. rewrite Ha0.
    destruct (dict_getitem (_neosByDes self) (_designation ca0))
      as [i|e] eqn:Hi.
    + destruct (dict_getitem_Ok _ _ _ Hi) as [k [_ Hk]].
      destruct (Hrange k i Hk) as [o Ho]. rewrite Ho.
      destruct (Hneos o) as [n Hn];
        [apply list_elem_of_lookup; exists i; exact Ho|].
      rewrite Hn.
      assert (Hframe := frame_step h a0 o ca0 n Ha0 Hn).
      apply IH.
      * intros r Hr. destruct (Hneos r Hr) as [n0 Hn0].
        destruct (frame_neo _ _ _ _ Hframe Hn0) as [n' [Hn' _]].
        eexists; exact Hn'.
      * intros a Ha. destruct (Hcas a) as [ca Hca]; [right; exact Ha|].
        destruct (frame_ca _ _ _ _ Hframe Hca) as [ca' [Hca' _]].
        eexists; exact Hca'.
      * destruct Hbad as [a [ca [Ha [Hca Hkey]]]].
        apply elem_of_cons in Ha as [-> | Ha]; [congruence|].
        destruct (frame_ca _ _ _ _ Hframe Hca) as [ca' [Hca' Hdes]].
        exists a, ca'. rewrite Hdes. repeat split; assumption.
    + rewrite (dict_getitem_raises _ _ _ Hi). eexists; reflexivity.
Qed.

(** C4: when the designation of an approach of the input is no key of the
    designation index, the constructor raises [KeyError]: it returns no
    store, with or without that approach. *)
Theorem unresolved_designation_is_fatal (neos approaches : list ref)
    (h : heap) (d : gmap string nat) (a : ref) (ca : CloseApproach) :
  dict_comp designation 0 neos ∅ h = (Ok d, h) ->
  (forall r, r ∈ approaches -> is_Some (ca_objs h !! r)) ->
  a ∈ approaches ->
  ca_objs h !! a = Some ca ->
  dict_getitem d (_designation ca) = Raise KeyError ->
  exists h', NEODatabase_init neos approaches h = (Raise KeyError, h').
Proof.
  intros Hd Hcas Ha Hca Hkey.
  destruct (dict_comp_Ok _ _ _ _ _ _ _ Hd) as [_ [Hvalid Hindex]].
  unfold NEODatabase_init, bindM. rewrite Hd.
  rewrite (dict_comp_valid name neos h Hvalid).
  set (self := {| _neos := neos; _approaches := approaches; _neosByDes := d;
                  _neosByName := index_of 0 (map (key_at name h) neos) ∅ |}).
  destruct (link_KeyError self approaches) with (h := h) as [h' Hlink].
  - intros k i Hk. cbn [self _neosByDes _neos] in *. rewrite Hindex in Hk.
    destruct (index_of_sound _ _ _ _ _ Hk) as [[Hempty _]|[p [-> Hp]]].
    + rewrite lookup_empty in Hempty. discriminate.
    + rewrite list_lookup_fmap in Hp. simpl.
      destruct (neos !! p) as [r|]; [eexists; reflexivity|discriminate].
  - exact Hvalid.
  - exact Hcas.
  - exists a, ca. repeat split; assumption.
  - exists h'. rewrite Hlink. reflexivity.
Qed.

Lemma unresolved_designation_is_fatal_witness :
  (dict_comp designation 0 [0%nat] ∅ orphan_heap =
     (Ok {[ "A1"%string := 0%nat ]}, orphan_heap)
   /\ 1%nat ∈ [0%nat; 1%nat]
   /\ ca_objs orphan_heap !! 1%nat = Some orphan
   /\ dict_getitem {[ "A1"%string := 0%nat ]} (_designation orphan) =
      Raise KeyError)
  /\ exists h',
       NEODatabase_init [0%nat] [0%nat; 1%nat] orphan_heap =
       (Raise KeyError, h').
Proof.
  assert (Hin : 1%nat ∈ [0%nat; 1%nat]) by (right; left).
  split; [repeat split; try reflexivity; exact Hin|].
  apply (unresolved_designation_is_fatal [0%nat] [0%nat; 1%nat] orphan_heap
           {[ "A1"%string := 0%nat ]} 1%nat orphan).
  - reflexivity.
  - intros r Hr. apply elem_of_cons in Hr as [-> | Hr];
      [eexists; reflexivity|].
    apply list_elem_of_singleton in Hr. subst r. eexists; reflexivity.
  - exact Hin.
  - reflexivity.
  - reflexivity.
Defined.

(** *** The designation index *)

Lemma key_at_frame (h h' : heap) (r : ref) :
  frame h h' -> key_at designation h' r = key_at designation h r.
Proof.
  intros [Hneo _]. unfold key_at. specialize (Hneo r).
  destruct (neo_objs h !! r), (neo_objs h' !! r); try contradiction;
    [apply Hneo|reflexivity].
Qed.

Lemma key_at_Some (h : heap) (r : ref) (k : string) :
  key_at designation h r = Some k <->
  exists n, neo_objs h !! r = Some n /\ designation n = Some k.
Proof.
  unfold key_at. destruct (neo_objs h !! r) as [n|]; split.
  - intros Hk. exists n. split; [reflexivity|exact Hk].
  - intros [n' [[= <-] Hk]]. exact Hk.
  - discriminate.
  - intros [n' [[=] _]].
Qed.

(** C6 as the code has it: the keys of the designation index are the
    designations, other than [None], of the objects of the store, the
    empty string as any other string; an entry is the position of an
    object with that designation; so a lookup by designation, by the empty
    string too, finds nothing exactly when no object has that designation,
    and a lookup by [None] finds nothing. *)
Theorem designation_index_keys (neos approaches : list ref) (h : heap)
    (db : NEODatabase) (h' : heap) :
  NEODatabase_init neos approaches h = (Ok db, h') ->
  (forall k, is_Some (_neosByDes db !! k) <->
             exists r n, r ∈ neos /\ neo_objs h' !! r = Some n
                         /\ designation n = Some k)
  /\ (forall k j, _neosByDes db !! k = Some j ->
        exists r n, neos !! j = Some r /\ neo_objs h' !! r = Some n
                    /\ designation n = Some k
                    /\ get_neo_by_designation db (Some k) = Ok (Some r))
  /\ (forall k, get_neo_by_designation db (Some k) = Ok None <->
                ~ exists r n, r ∈ neos /\ neo_objs h' !! r = Some n
                              /\ designation n = Some k)
  /\ get_neo_by_designation db None = Ok None.
Proof.
  intros Hinit.
  destruct (NEODatabase_init_Ok _ _ _ _ _ Hinit) as [Hdb [Hvalid Hlink]].
  assert (Hframe := link_frame _ _ _ _ _ Hlink).
  set (keys := map (key_at designation h) neos).
  assert (Hindex : _neosByDes db = index_of 0 keys ∅)
    by (rewrite Hdb; reflexivity).
  assert (Hneos : _neos db = neos) by (rewrite Hdb; reflexivity).
  assert (Hkeys : forall k,
            Some k ∈ keys <->
            exists r n, r ∈ neos /\ neo_objs h' !! r = Some n
                        /\ designation n = Some k).
  { intros k. unfold keys. rewrite list_elem_of_fmap. split.
    - intros [r [Hk Hr]]. symmetry in Hk.
      rewrite <- (key_at_frame h h' r Hframe) in Hk.
      apply key_at_Some in Hk as [n [Hn Hk]]. exists r, n. auto.
    - intros [r [n [Hr [Hn Hk]]]]. exists r. split; [|exact Hr].
      symmetry. rewrite <- (key_at_frame h h' r Hframe).
      apply key_at_Some. exists n. auto. }
  assert (Hentry : forall k j, _neosByDes db !! k = Some j ->
            exists r n, neos !! j = Some r /\ neo_objs h' !! r = Some n
                        /\ designation n = Some k
                        /\ get_neo_by_designation db (Some k) = Ok (Some r)).
  { intros k j Hj. pose proof Hj as Hj'. rewrite Hindex in Hj'.
    destruct (index_of_sound _ _ _ _ _ Hj') as [[Hempty _]|[p [-> Hp]]];
      [rewrite lookup_empty in Hempty; discriminate|].
    unfold keys in Hp. rewrite list_lookup_fmap in Hp. simpl.
    destruct (neos !! p) as [r|] eqn:Hr; [|discriminate].
    injection Hp as Hk. rewrite <- (key_at_frame h h' r Hframe) in Hk.
    apply key_at_Some in Hk as [n [Hn Hk]].
    exists r, n. repeat split; try assumption.
    unfold get_neo_by_designation, dict_getitem, list_getitem.
    rewrite Hj, Hneos. simpl. rewrite Hr. reflexivity. }
  split; [|split; [exact Hentry|split; [|reflexivity]]].
  - intros k. rewrite <- Hkeys, Hindex. split.
    + intros [j Hj]. destruct (decide (Some k ∈ keys)) as [Hin|Hnotin];
        [exact Hin|].
      rewrite (index_of_absent _ _ Hnotin), lookup_empty in Hj. discriminate.
    + intros Hin. destruct (index_of_present _ _ Hin 0%nat ∅) as [p [Hp _]].
      eexists; exact Hp.
  - intros k. rewrite <- Hkeys. split.
    + intros Hnone Hin.
      destruct (index_of_present _ _ Hin 0%nat ∅) as [p [Hp _]].
      rewrite <- Hindex in Hp.
      destruct (Hentry k _ Hp) as [r [n [_ [_ [_ Hget]]]]]. congruence.
    + intros Hnotin. unfold get_neo_by_designation, dict_getitem.
      rewrite Hindex, (index_of_absent _ _ Hnotin), lookup_empty.
      reflexivity.
Qed.

Lemma designation_index_keys_witness :
  NEODatabase_init [0%nat] [0%nat] unlinked = (Ok sample_db, linked)
  /\ get_neo_by_designation sample_db (Some "A1"%string) = Ok (Some 0%nat)
  /\ get_neo_by_designation sample_db (Some ""%string) = Ok None.
Proof.
  destruct (designation_index_keys [0%nat] [0%nat] unlinked sample_db linked
              sample_linked) as [_ [Hentry [Hnone _]]].
  split; [exact sample_linked|]. split.
  - destruct (Hentry "A1"%string 0%nat) as [r [n [Hr [_ [_ Hget]]]]];
      [reflexivity|].
    injection Hr as <-. exact Hget.
  - apply Hnone. intros [r [n [Hr [Hn Hk]]]].
    apply list_elem_of_singleton in Hr. subst r.
    vm_compute in Hn. injection Hn as <-. discriminate.
Defined.

(** The claim of C6 fails: an object whose designation is the empty string
    is indexed, and the lookup by the empty string finds it. *)
Lemma empty_designation_is_indexed :
  ~ forall neos approaches h db h',
      NEODatabase_init neos approaches h = (Ok db, h') ->
      get_neo_by_designation db (Some ""%string) = Ok None.
Proof.
  intros Hclaim.
  assert (Hinit : NEODatabase_init [0%nat] [] nameless_heap =
                  (Ok nameless_db, nameless_heap))
    by (vm_compute; reflexivity).
  specialize (Hclaim _ _ _ _ _ Hinit). vm_compute in Hclaim. discriminate.
Qed.

(** ** The scenario of the specification, run on the model *)

Example scenario_records :
  NearEarthObject_init any_unicode
    {[ "pdes"%string := Some "A1"%string;
       "name"%string := Some "Rocky"%string;
       "diameter"%string := Some ""%string;
       "pha"%string := Some "N"%string ]} =
  Ok rocky
  /\ CloseApproach_init any_unicode (fun _ => Ok (time flyby))
       {[ "des"%string := Some "A1"%string;
          "cd"%string := Some "2020-Jan-01 00:00"%string;
          "dist"%string := Some "0.5"%string;
          "v_rel"%string := Some "10.0"%string ]} =
     Ok flyby.
Proof. split; vm_compute; reflexivity. Qed.

Example scenario_queries :
  fst <$> collect 2 linked
            (query sample_db
               (Some (callable
                  (Filter_call
                     (create_filters None None None None None
                        None None None None (Some false)))))) =
  Some (Ok [0%nat])
  /\ fst <$> collect 2 linked
               (query sample_db
                  (Some (callable
                     (Filter_call
                        (create_filters None None None None None
                           None None None None (Some true)))))) =
     Some (Ok [])
  /\ get_neo_by_name sample_db (Some "Rocky"%string) = Ok (Some 0%nat)
  /\ get_neo_by_name sample_db (Some ""%string) = Ok None.
Proof. repeat split; vm_compute; reflexivity. Qed.

(** * Further properties of the sources *)

Import representations write extract.

(** ** The two lookups *)

(** A lookup in the dictionary of the comprehension, followed by the
    access to the list: it finds the last object with the key. *)
Lemma index_lookup (f : nat -> option string) (neos : list nat) (k : string) :
  (forall j r, neos !! j = Some r -> f r = Some k ->
     (forall j' r', (j < j')%nat -> neos !! j' = Some r' -> f r' <> Some k) ->
     or_None (let! i := dict_getitem (index_of 0 (map f neos) ∅) (Some k) in
              list_getitem neos i) = Ok (Some r))
  /\ ((forall r, r ∈ neos -> f r <> Some k) ->
      or_None (let! i := dict_getitem (index_of 0 (map f neos) ∅) (Some k) in
               list_getitem neos i) = Ok None)
  /\ (forall r,
        or_None (let! i := dict_getitem (index_of 0 (map f neos) ∅) (Some k) in
                 list_getitem neos i) = Ok (Some r) ->
        r ∈ neos /\ f r = Some k).
Proof.
  set (keys := map f neos).
  assert (Hin : Some k ∈ keys <-> exists r, r ∈ neos /\ f r = Some k).
  { unfold keys. rewrite list_elem_of_fmap. split; intros [r [H1 H2]];
      exists r; auto. }
  split; [|split].
  - intros j r Hj Hr Hlast.
    destruct (index_of_present keys k) with (i := 0%nat) (d := ∅ : gmap string nat)
      as [p [Hp [Hat Hafter]]].
    { apply Hin. exists r. split; [|exact Hr].
      apply list_elem_of_lookup. exists j. exact Hj. }
    unfold keys in Hat, Hafter. rewrite list_lookup_fmap in Hat.
    destruct (neos !! p) as [rp|] eqn:Hrp; [|discriminate].
    injection Hat as Hkp.
    assert (p = j) as ->.
    { destruct (Nat.lt_trichotomy p j) as [Hlt|[Heq|Hgt]]; [|exact Heq|].
      - exfalso. apply (Hafter j Hlt). rewrite list_lookup_fmap, Hj. simpl.
        congruence.
      - exfalso. apply (Hlast p rp Hgt Hrp). exact Hkp. }
    unfold dict_getitem, list_getitem. rewrite Hp. simpl. rewrite Hj.
    reflexivity.
  - intros Hnone. unfold dict_getitem.
    rewrite index_of_absent, lookup_empty; [reflexivity|].
    intros Hk. apply Hin in Hk as [r [Hr Hkr]]. exact (Hnone r Hr Hkr).
  - intros r. unfold dict_getitem.
    destruct (index_of 0 keys ∅ !! k) as [j|] eqn:Hj; [|discriminate].
    destruct (index_of_sound _ _ _ _ _ Hj) as [[Hempty _]|[p [-> Hp]]];
      [rewrite lookup_empty in Hempty; discriminate|].
    unfold keys in Hp. rewrite list_lookup_fmap in Hp. simpl.
    unfold list_getitem. destruct (neos !! p) as [rp|] eqn:Hrp; [|discriminate].
    simpl. intros [= <-]. injection Hp as Hk. split; [|exact Hk].
    apply list_elem_of_lookup. exists p. exact Hrp.
Qed.

Lemma key_at_frame_name (h h' : heap) (r : nat) :
  frame h h' -> key_at name h' r = key_at name h r.
Proof.
  intros [Hneo _]. unfold key_at. specialize (Hneo r).
  destruct (neo_objs h !! r), (neo_objs h' !! r); try contradiction;
    [apply Hneo|reflexivity].
Qed.

(** The designation of an object is a key under which the store finds it,
    unless a later object of the collection has the same designation. *)
Theorem designation_round_trip (neos approaches : list nat) (h : heap)
    (db : NEODatabase) (h' : heap) (j : nat) (r : nat) (k : string) :
  NEODatabase_init neos approaches h = (Ok db, h') ->
  neos !! j = Some r ->
  key_at designation h' r = Some k ->
  (forall j' r', (j < j')%nat -> neos !! j' = Some r' ->
                 key_at designation h' r' <> Some k) ->
  get_neo_by_designation db (Some k) = Ok (Some r).
Proof.
  intros Hinit Hj Hk Hlast.
  destruct (NEODatabase_init_Ok _ _ _ _ _ Hinit) as [Hdb [_ Hlink]].
  assert (Hframe := link_frame _ _ _ _ _ Hlink).
  unfold get_neo_by_designation. rewrite Hdb. cbn [_neosByDes _neos].
  apply (index_lookup (key_at designation h) neos k) with (j := j).
  - exact Hj.
  - rewrite <- (key_at_frame h h' r Hframe). exact Hk.
  - intros j' r' Hlt Hj'. rewrite <- (key_at_frame h h' r' Hframe).
    apply (Hlast j' r' Hlt Hj').
Qed.

Lemma designation_round_trip_witness :
  (NEODatabase_init [0%nat] [0%nat] unlinked = (Ok sample_db, linked)
   /\ [0%nat] !! 0%nat = Some 0%nat
   /\ key_at designation linked 0%nat = Some "A1"%string)
  /\ get_neo_by_designation sample_db (Some "A1"%string) = Ok (Some 0%nat).
Proof.
  split; [repeat split; try reflexivity; exact sample_linked|].
  apply (designation_round_trip [0%nat] [0%nat] unlinked sample_db linked
           0%nat 0%nat "A1"%string sample_linked); [reflexivity|reflexivity|].
  intros [|j'] r' Hlt Hj'; [lia|discriminate].
Defined.

(** The lookup by name: it finds an object of the store with that name,
    the last one of the collection; it finds nothing exactly when no
    object has the name, and nothing for [None]; and it finds nothing for
    the empty string when no object has the empty string for name, as
    none that [NearEarthObject.__init__] made has. *)
Theorem name_lookup (neos approaches : list nat) (h : heap)
    (db : NEODatabase) (h' : heap) :
  NEODatabase_init neos approaches h = (Ok db, h') ->
  (forall k r, get_neo_by_name db (Some k) = Ok (Some r) ->
               r ∈ neos /\ key_at name h' r = Some k)
  /\ (forall k j r, neos !! j = Some r -> key_at name h' r = Some k ->
        (forall j' r', (j < j')%nat -> neos !! j' = Some r' ->
                       key_at name h' r' <> Some k) ->
        get_neo_by_name db (Some k) = Ok (Some r))
  /\ (forall k, (forall r, r ∈ neos -> key_at name h' r <> Some k) <->
                get_neo_by_name db (Some k) = Ok None)
  /\ get_neo_by_name db None = Ok None.
Proof.
  intros Hinit.
  destruct (NEODatabase_init_Ok _ _ _ _ _ Hinit) as [Hdb [_ Hlink]].
  assert (Hframe := link_frame _ _ _ _ _ Hlink).
  assert (Hkey : forall r, key_at name h r = key_at name h' r)
    by (intros r; symmetry; apply key_at_frame_name; exact Hframe).
  unfold get_neo_by_name. rewrite Hdb. cbn [_neosByName _neos].
  split; [|split; [|split; [|reflexivity]]].
  - intros k r Hget.
    destruct (index_lookup (key_at name h) neos k) as [_ [_ Hfound]].
    rewrite <- Hkey. apply Hfound. exact Hget.
  - intros k j r Hj Hk Hlast.
    destruct (index_lookup (key_at name h) neos k) as [Hlast' _].
    apply (Hlast' j r Hj); [rewrite Hkey; exact Hk|].
    intros j' r' Hlt Hj'. rewrite Hkey. apply (Hlast j' r' Hlt Hj').
  - intros k.
    destruct (index_lookup (key_at name h) neos k) as [_ [Hnone Hfound]].
    split.
    + intros Hno. apply Hnone. intros r Hr. rewrite Hkey. apply Hno. exact Hr.
    + intros Hget r Hr Hk.
      destruct (decide (Some k ∈ map (key_at name h) neos)) as [Hin|Hnotin].
      * destruct (index_of_present _ _ Hin 0%nat (∅ : gmap string nat))
          as [p [Hp [Hat _]]].
        unfold dict_getitem, list_getitem in Hget. rewrite Hp in Hget.
        simpl in Hget. rewrite list_lookup_fmap in Hat.
        destruct (neos !! p); [discriminate|discriminate].
      * apply Hnotin. apply list_elem_of_fmap. exists r.
        rewrite Hkey. split; [symmetry; exact Hk|exact Hr].
Qed.

Lemma name_lookup_witness :
  NEODatabase_init [0%nat] [0%nat] unlinked = (Ok sample_db, linked)
  /\ get_neo_by_name sample_db (Some ""%string) = Ok None.
Proof.
  split; [exact sample_linked|].
  destruct (name_lookup [0%nat] [0%nat] unlinked sample_db linked
              sample_linked) as [_ [_ [Hnone _]]].
  apply Hnone. intros r Hr. apply list_elem_of_singleton in Hr. subst r.
  discriminate.
Defined.

(** Neither lookup raises, on any store and for any key: the three
    [except] clauses cover what the two subscripts can raise. *)
Theorem lookups_never_raise (self : NEODatabase) (key : option string) :
  (exists o, get_neo_by_designation self key = Ok o)
  /\ (exists o, get_neo_by_name self key = Ok o).
Proof.
  unfold get_neo_by_designation, get_neo_by_name, dict_getitem, list_getitem.
  split; destruct key as [k|]; simpl; try (eexists; reflexivity).
  - destruct (_neosByDes self !! k) as [i|]; simpl; [|eexists; reflexivity].
    destruct (_neos self !! i); eexists; reflexivity.
  - destruct (_neosByName self !! k) as [i|]; simpl; [|eexists; reflexivity].
    destruct (_neos self !! i); eexists; reflexivity.
Qed.

(** ** What the construction does to the heap *)

Lemma dict_comp_heap (key : NearEarthObject -> option string)
    (neos : list nat) :
  forall i d h r h', dict_comp key i neos d h = (r, h') -> h' = h.
Proof.
  induction neos as [|x neos IH]; intros i d h r h'; simpl.
  - intros [= _ <-]. reflexivity.
  - unfold bindM, read_neo. destruct (neo_objs h !! x) as [n|].
    + destruct (key n); apply IH.
    + intros [= _ <-]. reflexivity.
Qed.

(** The loop writes to the approaches it goes through and to objects of
    the store, and to nothing else. *)
Lemma link_untouched (self : NEODatabase) (approaches : list nat) :
  forall h r h', link self approaches h = (r, h') ->
  (forall a, a ∉ approaches -> ca_objs h' !! a = ca_objs h !! a)
  /\ (forall O, O ∉ _neos self -> neo_objs h' !! O = neo_objs h !! O).
Proof.
  induction approaches as [|a0 rest IH]; intros h r h'.
  - intros [= _ <-]. split; reflexivity.
  - rewrite link_cons.
    destruct (ca_objs h !! a0) as [ca|] eqn:Ha;
      [|intros [= _ <-]; split; reflexivity].
    destruct (dict_getitem _ _) as [i|e];
      [|intros [= _ <-]; split; reflexivity].
    destruct (_neos self !! i) as [o|] eqn:Ho;
      [|intros [= _ <-]; split; reflexivity].
    destruct (neo_objs h !! o) as [n|] eqn:Hn.
    + intros Hlink. destruct (IH _ _ _ Hlink) as [Hca Hneo]. split.
      * intros a Hnotin. rewrite Hca by (intros Hin; apply Hnotin; right; exact Hin).
        cbn [ca_objs]. apply lookup_insert_ne. intros ->. apply Hnotin. left.
      * intros O HO. rewrite (Hneo O HO). cbn [neo_objs].
        apply lookup_insert_ne. intros ->. apply HO.
        apply list_elem_of_lookup. exists i. exact Ho.
    + intros [= _ <-]. split; [|reflexivity].
      intros a Hnotin. cbn [ca_objs]. apply lookup_insert_ne.
      intros ->. apply Hnotin. left.
Qed.

(** Whatever the outcome of the constructor, what it changes in the heap
    is the [neo] of approaches of its input and the [approaches] of
    objects of its input: no object appears or disappears, every other
    field keeps its value, and the approaches and objects outside the two
    collections are as they were. *)
Theorem construction_frame (neos approaches : list nat) (h : heap)
    (r : result NEODatabase) (h' : heap) :
  NEODatabase_init neos approaches h = (r, h') ->
  frame h h'
  /\ (forall a, a ∉ approaches -> ca_objs h' !! a = ca_objs h !! a)
  /\ (forall O, O ∉ neos -> neo_objs h' !! O = neo_objs h !! O).
Proof.
  unfold NEODatabase_init, bindM.
  destruct (dict_comp designation 0 neos ∅ h) as [[byDes|e] h1] eqn:Hdes;
    rewrite (dict_comp_heap _ _ _ _ _ _ _ Hdes);
    [|intros [= _ <-]; split; [apply frame_refl|split; reflexivity]].
  destruct (dict_comp name 0 neos ∅ h) as [[byName|e] h2] eqn:Hname;
    rewrite (dict_comp_heap _ _ _ _ _ _ _ Hname);
    [|intros [= _ <-]; split; [apply frame_refl|split; reflexivity]].
  destruct (link _ approaches h) as [[[]|e] h3] eqn:Hlink;
    intros [= _ <-];
    (split; [exact (link_frame _ _ _ _ _ Hlink)|]);
    exact (link_untouched _ _ _ _ _ Hlink).
Qed.

Lemma construction_frame_witness :
  NEODatabase_init [0%nat] [0%nat; 1%nat] orphan_heap =
    (Raise KeyError,
     Heap {[ 0%nat := with_approach rocky 0%nat ]}
          {[ 0%nat := with_neo flyby 0%nat; 1%nat := orphan ]})
  /\ frame orphan_heap
       (Heap {[ 0%nat := with_approach rocky 0%nat ]}
             {[ 0%nat := with_neo flyby 0%nat; 1%nat := orphan ]}).
Proof.
  assert (Hinit : NEODatabase_init [0%nat] [0%nat; 1%nat] orphan_heap =
                  (Raise KeyError,
                   Heap {[ 0%nat := with_approach rocky 0%nat ]}
                        {[ 0%nat := with_neo flyby 0%nat; 1%nat := orphan ]}))
    by (vm_compute; reflexivity).
  split; [exact Hinit|].
  exact (proj1 (construction_frame _ _ _ _ _ Hinit)).
Defined.

(** ** When the construction succeeds, and how it fails *)

(** The loop uses of the store its objects and its designation index. *)
Lemma link_ext (self self' : NEODatabase) (approaches : list nat) (h : heap) :
  _neos self' = _neos self -> _neosByDes self' = _neosByDes self ->
  link self' approaches h = link self approaches h.
Proof.
  intros Hneos Hdes. revert h.
  induction approaches as [|a rest IH]; intros h; [reflexivity|].
  rewrite !link_cons, Hneos, Hdes.
  destruct (ca_objs h !! a) as [ca|]; [|reflexivity].
  destruct (dict_getitem _ _) as [i|e]; [|reflexivity].
  destruct (_neos self !! i) as [o|]; [|reflexivity].
  destruct (neo_objs h !! o); [apply IH|reflexivity].
Qed.

Lemma link_app (self : NEODatabase) (l1 l2 : list nat) :
  forall h,
  link self (l1 ++ l2) h =
  match link self l1 h with
  | (Ok _, h1) => link self l2 h1
  | (Raise e, h1) => (Raise e, h1)
  end.
Proof.
  induction l1 as [|a l1 IH]; intros h; [reflexivity|].
  rewrite <- app_comm_cons, !link_cons.
  destruct (ca_objs h !! a) as [ca|]; [|reflexivity].
  destruct (dict_getitem _ _) as [i|e]; [|reflexivity].
  destruct (_neos self !! i) as [o|]; [|reflexivity].
  destruct (neo_objs h !! o); [apply IH|reflexivity].
Qed.

Lemma resolves_target (self : NEODatabase) (h : heap) (a : nat) :
  _neosByDes self = index_of 0 (map (key_at designation h) (_neos self)) ∅ ->
  resolves h (_neos self) a -> is_Some (target self h a).
Proof.
  intros Hindex [ca [k [r [Ha [Hk [Hr Hkey]]]]]].
  unfold target. rewrite Ha, Hk. unfold dict_getitem. rewrite Hindex.
  destruct (index_of_present (map (key_at designation h) (_neos self)) k)
    with (i := 0%nat) (d := ∅ : gmap string nat) as [p [Hp [Hat _]]].
  { apply list_elem_of_fmap. exists r. auto. }
  rewrite Hp. simpl. rewrite list_lookup_fmap in Hat.
  destruct (_neos self !! p); [eexists; reflexivity|discriminate].
Qed.

Lemma link_resolved (self : NEODatabase) (approaches : list nat) :
  forall h,
  (forall r, r ∈ _neos self -> is_Some (neo_objs h !! r)) ->
  (forall a, a ∈ approaches -> is_Some (target self h a)) ->
  exists h', link self approaches h = (Ok tt, h').
Proof.
  induction approaches as [|a rest IH]; intros h Hneos Hall.
  - eexists; reflexivity.
  - rewrite link_cons. destruct (Hall a) as [o Ho]; [left|].
    unfold target in Ho.
    destruct (ca_objs h !! a) as [ca|] eqn:Ha; [|discriminate].
    destruct (dict_getitem _ _) as [i|e]; [|discriminate].
    rewrite Ho. destruct (Hneos o) as [n Hn];
      [apply list_elem_of_lookup; exists i; exact Ho|].
    rewrite Hn. assert (Hframe := frame_step h a o ca n Ha Hn).
    apply IH.
    + intros r Hr. destruct (Hneos r Hr) as [n0 Hn0].
      destruct (frame_neo _ _ _ _ Hframe Hn0) as [n' [Hn' _]].
      eexists; exact Hn'.
    + intros a' Ha'. rewrite (target_frame self _ _ a' Hframe).
      apply Hall. right. exact Ha'.
Qed.

Lemma link_raises (self : NEODatabase) (approaches : list nat) :
  (forall k i, _neosByDes self !! k = Some i -> is_Some (_neos self !! i)) ->
  forall h e h',
  (forall r, r ∈ _neos self -> is_Some (neo_objs h !! r)) ->
  (forall a, a ∈ approaches -> is_Some (ca_objs h !! a)) ->
  link self approaches h = (Raise e, h') ->
  e = KeyError /\ exists a, a ∈ approaches /\ target self h a = None.
Proof.
  intros Hrange.
  induction approaches as [|a rest IH]; intros h e h' Hneos Hcas.
  - discriminate.
  - rewrite link_cons. destruct (Hcas a) as [ca Ha]; [left|]. rewrite Ha.
    destruct (dict_getitem _ _) as [i|e0] eqn:Hi.
    + destruct (dict_getitem_Ok _ _ _ Hi) as [k [_ Hk]].
      destruct (Hrange k i Hk) as [o Ho]. rewrite Ho.
      destruct (Hneos o) as [n Hn];
        [apply list_elem_of_lookup; exists i; exact Ho|].
      rewrite Hn. assert (Hframe := frame_step h a o ca n Ha Hn).
      intros Hlink.
      assert (Hneos' : forall r, r ∈ _neos self ->
                is_Some (neo_objs
                           (Heap (<[o := with_approach n a]> (neo_objs h))
                                 (<[a := with_neo ca o]> (ca_objs h))) !! r)).
      { intros r Hr. destruct (Hneos r Hr) as [n0 Hn0].
        destruct (frame_neo _ _ _ _ Hframe Hn0) as [n' [Hn' _]].
        eexists; exact Hn'. }
      assert (Hcas' : forall a', a' ∈ rest ->
                is_Some (ca_objs
                           (Heap (<[o := with_approach n a]> (neo_objs h))
                                 (<[a := with_neo ca o]> (ca_objs h))) !! a')).
      { intros a' Ha'. destruct (Hcas a') as [ca' Hca']; [right; exact Ha'|].
        destruct (frame_ca _ _ _ _ Hframe Hca') as [ca'' [Hca'' _]].
        eexists; exact Hca''. }
      destruct (IH _ _ _ Hneos' Hcas' Hlink) as [-> [a' [Ha' Hnone]]].
      split; [reflexivity|]. exists a'. split; [right; exact Ha'|].
      rewrite <- (target_frame self _ _ a' Hframe). exact Hnone.
    + intros [= <- <-]. split; [exact (dict_getitem_raises _ _ _ Hi)|].
      exists a. split; [left|]. unfold target. rewrite Ha, Hi. reflexivity.
Qed.

Lemma index_in_range (f : nat -> option string) (neos : list nat) (k : string)
    (i : nat) :
  index_of 0 (map f neos) ∅ !! k = Some i -> is_Some (neos !! i).
Proof.
  intros Hk.
  destruct (index_of_sound _ _ _ _ _ Hk) as [[Hempty _]|[p [-> Hp]]].
  - rewrite lookup_empty in Hempty. discriminate.
  - rewrite list_lookup_fmap in Hp. simpl.
    destruct (neos !! p); [eexists; reflexivity|discriminate].
Qed.

(** On objects and approaches of the heap, the constructor returns a
    store when every approach has for foreign key the designation of an
    object of the collection, and when it raises, it raises [KeyError] for
    an approach that has not: it raises nothing else. *)
Theorem construction_outcome (neos approaches : list nat) (h : heap) :
  (forall r, r ∈ neos -> is_Some (neo_objs h !! r)) ->
  (forall a, a ∈ approaches -> is_Some (ca_objs h !! a)) ->
  ((forall a, a ∈ approaches -> resolves h neos a) ->
   exists db h', NEODatabase_init neos approaches h = (Ok db, h'))
  /\ (forall e h', NEODatabase_init neos approaches h = (Raise e, h') ->
        e = KeyError
        /\ exists a, a ∈ approaches /\ ~ resolves h neos a).
Proof.
  intros Hneos Hcas. unfold NEODatabase_init, bindM.
  rewrite (dict_comp_valid designation neos h Hneos).
  rewrite (dict_comp_valid name neos h Hneos).
  set (self := {| _neos := neos; _approaches := approaches;
                  _neosByDes := index_of 0 (map (key_at designation h) neos) ∅;
                  _neosByName := index_of 0 (map (key_at name h) neos) ∅ |}).
  split.
  - intros Hall. destruct (link_resolved self approaches h Hneos) as [h' Hlink].
    + intros a Ha. apply resolves_target; [reflexivity|]. apply Hall. exact Ha.
    + exists self, h'. rewrite Hlink. reflexivity.
  - intros e h'. destruct (link self approaches h) as [[[]|e0] h1] eqn:Hlink;
      intros [= <- <-].
    assert (Hrange : forall k i, _neosByDes self !! k = Some i ->
                                 is_Some (_neos self !! i))
      by (intros k i; apply index_in_range).
    destruct (link_raises self approaches Hrange h e0 h1 Hneos Hcas Hlink)
      as [-> [a [Ha Hnone]]].
    split; [reflexivity|]. exists a. split; [exact Ha|].
    intros Hres. apply (resolves_target self) in Hres; [|reflexivity].
    rewrite Hnone in Hres. destruct Hres as [o Ho]. discriminate.
Qed.

Lemma construction_outcome_witness :
  ((forall r, r ∈ [0%nat] -> is_Some (neo_objs unlinked !! r))
   /\ (forall a, a ∈ [0%nat] -> is_Some (ca_objs unlinked !! a))
   /\ (forall a, a ∈ [0%nat] -> resolves unlinked [0%nat] a))
  /\ exists db h', NEODatabase_init [0%nat] [0%nat] unlinked = (Ok db, h').
Proof.
  assert (Hneos : forall r, r ∈ [0%nat] -> is_Some (neo_objs unlinked !! r)).
  { intros r Hr. apply list_elem_of_singleton in Hr. subst r.
    eexists; reflexivity. }
  assert (Hcas : forall a, a ∈ [0%nat] -> is_Some (ca_objs unlinked !! a)).
  { intros r Hr. apply list_elem_of_singleton in Hr. subst r.
    eexists; reflexivity. }
  assert (Hall : forall a, a ∈ [0%nat] -> resolves unlinked [0%nat] a).
  { intros r Hr. apply list_elem_of_singleton in Hr. subst r.
    exists flyby, "A1"%string, 0%nat. repeat split; try reflexivity. left. }
  split; [repeat split; assumption|].
  exact (proj1 (construction_outcome [0%nat] [0%nat] unlinked Hneos Hcas) Hall).
Defined.

(** After the construction every approach of the store refers to an
    object of the store, and the designation of that object is the
    foreign key of the approach. *)
Theorem linked_by_designation (neos approaches : list nat) (h : heap)
    (db : NEODatabase) (h' : heap) (a : nat) :
  NEODatabase_init neos approaches h = (Ok db, h') ->
  a ∈ approaches ->
  exists ca O n k,
    ca_objs h' !! a = Some ca /\ neo ca = Some O /\ O ∈ neos
    /\ neo_objs h' !! O = Some n
    /\ designation n = Some k /\ _designation ca = Some k.
Proof.
  intros Hinit Ha.
  destruct (NEODatabase_init_Ok _ _ _ _ _ Hinit) as [Hdb [Hvalid Hlink]].
  assert (Hframe := link_frame _ _ _ _ _ Hlink).
  destruct (link_Ok _ _ _ _ Hlink) as [Hin _].
  destruct (Hin a Ha) as [Hneo [O HO]]. rewrite HO in Hneo.
  unfold target in HO.
  destruct (ca_objs h !! a) as [ca0|] eqn:Hca0; [|discriminate].
  destruct (dict_getitem _ _) as [i|e] eqn:Hi; [|discriminate].
  destruct (dict_getitem_Ok _ _ _ Hi) as [k [Hk Hindex]].
  rewrite Hdb in HO, Hindex. cbn [_neos _neosByDes] in HO, Hindex.
  destruct (index_of_sound _ _ _ _ _ Hindex) as [[Hempty _]|[p [-> Hp]]];
    [rewrite lookup_empty in Hempty; discriminate|].
  rewrite list_lookup_fmap in Hp. simpl in HO. rewrite HO in Hp.
  injection Hp as Hkey. apply key_at_Some in Hkey as [n0 [Hn0 Hdes]].
  destruct (frame_neo _ _ _ _ Hframe Hn0) as [n [Hn [Hsame _]]].
  destruct (frame_ca _ _ _ _ Hframe Hca0) as [ca [Hca Hfk]].
  unfold neo_of in Hneo. rewrite Hca in Hneo.
  exists ca, O, n, k. repeat split; try assumption.
  - apply list_elem_of_lookup. exists p. exact HO.
  - congruence.
  - congruence.
Qed.

Lemma linked_by_designation_witness :
  (NEODatabase_init [0%nat] [0%nat] unlinked = (Ok sample_db, linked)
   /\ 0%nat ∈ [0%nat])
  /\ exists ca O n k,
       ca_objs linked !! 0%nat = Some ca /\ neo ca = Some O /\ O ∈ [0%nat]
       /\ neo_objs linked !! O = Some n
       /\ designation n = Some k /\ _designation ca = Some k.
Proof.
  assert (Hin : 0%nat ∈ [0%nat]) by left.
  split; [split; [exact sample_linked|exact Hin]|].
  exact (linked_by_designation [0%nat] [0%nat] unlinked sample_db linked 0%nat
           sample_linked Hin).
Defined.

(** The constructor does not start the lists afresh: behind the
    approaches that an object of the heap already has, it puts the
    approaches of the input that refer to the object, in their order.  A
    second store built over objects that are linked lists every approach
    a second time. *)
Theorem construction_appends (neos approaches : list nat) (h : heap)
    (db : NEODatabase) (h' : heap) (O : nat) (n : NearEarthObject) :
  NEODatabase_init neos approaches h = (Ok db, h') ->
  neo_objs h !! O = Some n ->
  exists n', neo_objs h' !! O = Some n'
    /\ models.approaches n' =
       models.approaches n
       ++ filter (fun a => neo_of h' a = Some O) approaches.
Proof.
  intros Hinit HO.
  destruct (NEODatabase_init_Ok _ _ _ _ _ Hinit) as [_ [_ Hlink]].
  destruct (link_Ok _ _ _ _ Hlink) as [Hin [_ Happ]].
  destruct (Happ O n HO) as [n' [Hn' Hlist]].
  exists n'. split; [exact Hn'|]. rewrite Hlist. f_equal.
  apply filter_ext_elem. intros a Ha. destruct (Hin a Ha) as [-> _].
  reflexivity.
Qed.

Lemma construction_appends_witness :
  (NEODatabase_init [0%nat] [0%nat] linked = (Ok sample_db, (sample_again).2)
   /\ neo_objs linked !! 0%nat = Some (with_approach rocky 0%nat))
  /\ exists n', neo_objs (sample_again).2 !! 0%nat = Some n'
       /\ models.approaches n' = [0%nat; 0%nat].
Proof.
  assert (Hinit : NEODatabase_init [0%nat] [0%nat] linked =
                  (Ok sample_db, (sample_again).2))
    by (vm_compute; reflexivity).
  split; [split; [exact Hinit|reflexivity]|].
  destruct (construction_appends [0%nat] [0%nat] linked sample_db
              (sample_again).2 0%nat (with_approach rocky 0%nat) Hinit eq_refl)
    as [n' [Hn' Hlist]].
  exists n'. split; [exact Hn'|]. rewrite Hlist. vm_compute. reflexivity.
Defined.

(** The constructor is not all-or-nothing: when it raises for an approach
    that does not resolve, the approaches before it stay linked, as the
    constructor on them alone leaves them. *)
Theorem construction_fails_half_way (neos pre post : list nat) (bad : nat)
    (ca : CloseApproach) (h : heap) (db : NEODatabase) (h1 : heap) :
  NEODatabase_init neos pre h = (Ok db, h1) ->
  ca_objs h !! bad = Some ca ->
  dict_getitem (_neosByDes db) (_designation ca) = Raise KeyError ->
  NEODatabase_init neos (pre ++ bad :: post) h = (Raise KeyError, h1).
Proof.
  intros Hinit Hbad Hkey.
  destruct (NEODatabase_init_Ok _ _ _ _ _ Hinit) as [Hdb [Hvalid Hlink]].
  assert (Hframe := link_frame _ _ _ _ _ Hlink).
  destruct (frame_ca _ _ _ _ Hframe Hbad) as [ca1 [Hca1 Hfk]].
  unfold NEODatabase_init, bindM.
  rewrite (dict_comp_valid designation neos h Hvalid).
  rewrite (dict_comp_valid name neos h Hvalid).
  set (self := {| _neos := neos; _approaches := pre ++ bad :: post;
                  _neosByDes := index_of 0 (map (key_at designation h) neos) ∅;
                  _neosByName := index_of 0 (map (key_at name h) neos) ∅ |}).
  assert (Hself : link self (pre ++ bad :: post) h = (Raise KeyError, h1)).
  { rewrite link_app.
    rewrite (link_ext db self pre h) by (rewrite Hdb; reflexivity).
    rewrite Hlink, link_cons, Hca1, Hfk.
    replace (_neosByDes self) with (_neosByDes db) by (rewrite Hdb; reflexivity).
    rewrite Hkey. reflexivity. }
  rewrite Hself. reflexivity.
Qed.

Lemma construction_fails_half_way_witness :
  (NEODatabase_init [0%nat] [0%nat] orphan_heap =
     (Ok sample_db,
      Heap {[ 0%nat := with_approach rocky 0%nat ]}
           {[ 0%nat := with_neo flyby 0%nat; 1%nat := orphan ]})
   /\ ca_objs orphan_heap !! 1%nat = Some orphan
   /\ dict_getitem (_neosByDes sample_db) (_designation orphan) =
      Raise KeyError)
  /\ NEODatabase_init [0%nat] ([0%nat] ++ 1%nat :: []) orphan_heap =
     (Raise KeyError,
      Heap {[ 0%nat := with_approach rocky 0%nat ]}
           {[ 0%nat := with_neo flyby 0%nat; 1%nat := orphan ]}).
Proof.
  assert (Hinit : NEODatabase_init [0%nat] [0%nat] orphan_heap =
                  (Ok sample_db,
                   Heap {[ 0%nat := with_approach rocky 0%nat ]}
                        {[ 0%nat := with_neo flyby 0%nat; 1%nat := orphan ]}))
    by (vm_compute; reflexivity).
  split; [repeat split; try reflexivity; exact Hinit|].
  exact (construction_fails_half_way [0%nat] [0%nat] [] 1%nat orphan
           orphan_heap sample_db _ Hinit eq_refl eq_refl).
Defined.

(** ** The composite filter, further *)

Lemma attribute_unlinked {T} (f : NearEarthObject -> T) h r a :
  ca_objs h !! r = Some a -> neo a = None ->
  neo_attribute f h r = Raise AttributeError.
Proof.
  intros Ha Hneo. unfold neo_attribute, attribute. rewrite Ha. simpl.
  rewrite Hneo. reflexivity.
Qed.

(** One turn of the loop on an item whose attribute cannot be fetched:
    the exception comes out only when the reference value is present and
    no filter before has failed. *)
Lemma Filter_loop_item_raise {T} `{Comparable T}
    (get : heap -> nat -> result T) o v items r h a e :
  get h a = Raise e ->
  Filter_loop (item get (Build_AttributeFilter o v) :: items) r h a =
  match v with
  | Some _ => if r then Raise e else Filter_loop items false h a
  | None => Filter_loop items r h a
  end.
Proof.
  intros Hget. destruct v as [v|]; simpl; [|reflexivity].
  unfold AttributeFilter_call. rewrite Hget. destruct r; reflexivity.
Qed.

Lemma Filter_loop_false (items : list (bool * (heap -> nat -> result bool)))
    (h : heap) (a : nat) :
  Filter_loop items false h a = Ok false.
Proof.
  induction items as [|[present f] items IH]; [reflexivity|].
  simpl. destruct present; exact IH.
Qed.

(** On an approach that is not linked the composite filter raises
    [AttributeError] exactly when a diameter or hazard criterion is given
    and all the criteria on the approach itself hold; when one of these
    fails the answer is [False], and without a criterion on the object
    the filter is the conjunction of the criteria given. *)
Theorem Filter_call_unlinked
    (date start_date end_date : option datetime.date_t)
    (distance_min distance_max velocity_min velocity_max : option float)
    (diameter_min diameter_max : option float) (hazardous : option bool)
    (h : heap) (approach : nat) (a : CloseApproach) :
  ca_objs h !! approach = Some a ->
  neo a = None ->
  Filter_call
    (create_filters date start_date end_date distance_min distance_max
       velocity_min velocity_max diameter_min diameter_max hazardous)
    h approach =
  if slot date (fun v => datetime.eqb (datetime.date (time a)) v)
     && slot start_date (fun v => datetime.leb v (datetime.date (time a)))
     && slot end_date (fun v => datetime.leb (datetime.date (time a)) v)
     && slot distance_min (fun v => SFleb v (distance a))
     && slot distance_max (fun v => SFleb (distance a) v)
     && slot velocity_min (fun v => SFleb v (velocity a))
     && slot velocity_max (fun v => SFleb (velocity a) v)
  then match diameter_min, diameter_max, hazardous with
       | None, None, None => Ok true
       | _, _, _ => Raise AttributeError
       end
  else Ok false.
Proof.
  intros Ha Hneo. unfold Filter_call, create_filters, vars.
  cbn [filters.date filters.start_date filters.end_date filters.distance_min
       filters.distance_max filters.velocity_min filters.velocity_max
       filters.diameter_min filters.diameter_max filters.hazardous].
  unfold DateFilter_get, DistanceFilter_get, VelocityFilter_get,
    DiameterFilter_get, HazardousFilter_get.
  rewrite 7 (Filter_loop_item _ _ _ _ _ _ _ _ (attribute_Ok _ _ _ _ Ha)).
  pose proof (attribute_unlinked diameter _ _ _ Ha Hneo) as Hdiameter.
  pose proof (attribute_unlinked models.hazardous _ _ _ Ha Hneo) as Hhazard.
  match goal with
  | |- Filter_loop ?items ?c _ _ = ?rhs =>
      set (b := c);
      change (Filter_loop items b h approach =
              if b
              then match diameter_min, diameter_max, hazardous with
                   | None, None, None => Ok true
                   | _, _, _ => Raise AttributeError
                   end
              else Ok false)
  end.
  rewrite (Filter_loop_item_raise _ _ _ _ _ _ _ _ Hdiameter).
  destruct diameter_min as [v1|];
    [destruct b; [reflexivity|apply Filter_loop_false]|].
  rewrite (Filter_loop_item_raise _ _ _ _ _ _ _ _ Hdiameter).
  destruct diameter_max as [v2|];
    [destruct b; [reflexivity|apply Filter_loop_false]|].
  rewrite (Filter_loop_item_raise _ _ _ _ _ _ _ _ Hhazard).
  destruct hazardous as [v3|]; destruct b; reflexivity.
Qed.

Lemma Filter_call_unlinked_witness :
  (ca_objs unlinked !! 0%nat = Some flyby /\ neo flyby = None)
  /\ Filter_call
       (create_filters None None None None None None None None None
          (Some false)) unlinked 0%nat = Raise AttributeError
  /\ Filter_call
       (create_filters (Some (datetime.Date 2021 1 1)) None None None None
          None None None None (Some false)) unlinked 0%nat = Ok false.
Proof.
  split; [split; reflexivity|]. split.
  - exact (Filter_call_unlinked None None None None None None None None None
             (Some false) unlinked 0%nat flyby eq_refl eq_refl).
  - exact (Filter_call_unlinked (Some (datetime.Date 2021 1 1)) None None None
             None None None None None (Some false) unlinked 0%nat flyby
             eq_refl eq_refl).
Defined.

(** The order of dates is antisymmetric: on the same date is on or after
    and on or before. *)
Lemma date_eqb_leb (x d : datetime.date_t) :
  datetime.eqb x d = datetime.leb d x && datetime.leb x d.
Proof.
  unfold datetime.eqb, datetime.leb, datetime.cmp.
  destruct x as [y m dd], d as [y' m' d']. simpl.
  destruct (Z.compare_spec y y'), (Z.compare_spec y' y); try lia;
    try reflexivity.
  destruct (Z.compare_spec m m'), (Z.compare_spec m' m); try lia;
    try reflexivity.
  destruct (Z.compare_spec dd d'), (Z.compare_spec d' dd); try lia;
    reflexivity.
Qed.

(** The criterion [date = d] selects what [start_date = d] with
    [end_date = d] selects, whatever the other criteria: the two composite
    filters agree on every approach of the heap, linked or not, in their
    answers and in their exceptions. *)
Theorem date_is_start_and_end (d : datetime.date_t)
    (distance_min distance_max velocity_min velocity_max : option float)
    (diameter_min diameter_max : option float) (hazardous : option bool)
    (h : heap) (approach : nat) :
  is_Some (ca_objs h !! approach) ->
  Filter_call
    (create_filters (Some d) None None distance_min distance_max
       velocity_min velocity_max diameter_min diameter_max hazardous)
    h approach =
  Filter_call
    (create_filters None (Some d) (Some d) distance_min distance_max
       velocity_min velocity_max diameter_min diameter_max hazardous)
    h approach.
Proof.
  intros [a Ha]. unfold Filter_call, create_filters, vars.
  cbn [filters.date filters.start_date filters.end_date filters.distance_min
       filters.distance_max filters.velocity_min filters.velocity_max
       filters.diameter_min filters.diameter_max filters.hazardous].
  unfold DateFilter_get.
  rewrite 6 (Filter_loop_item _ _ _ _ _ _ _ _ (attribute_Ok _ _ _ _ Ha)).
  f_equal. unfold holds, slot, py_op, datetime.date_comparable.
  rewrite date_eqb_leb. simpl. rewrite !andb_true_r. reflexivity.
Qed.

Lemma date_is_start_and_end_witness :
  is_Some (ca_objs linked !! 0%nat)
  /\ Filter_call
       (create_filters (Some (datetime.Date 2020 1 1)) None None None None
          None None None None None) linked 0%nat =
     Filter_call
       (create_filters None (Some (datetime.Date 2020 1 1))
          (Some (datetime.Date 2020 1 1)) None None None None None None None)
       linked 0%nat.
Proof.
  assert (Hsome : is_Some (ca_objs linked !! 0%nat))
    by (eexists; reflexivity).
  split; [exact Hsome|].
  exact (date_is_start_and_end (datetime.Date 2020 1 1) None None None None
           None None None linked 0%nat Hsome).
Defined.

(** ** Queries on a constructed store *)

Lemma Filter_call_linked
    (date start_date end_date : option datetime.date_t)
    (distance_min distance_max velocity_min velocity_max : option float)
    (diameter_min diameter_max : option float) (hazardous : option bool)
    (h : heap) (r : nat) (a : CloseApproach) (o : nat) (n : NearEarthObject) :
  ca_objs h !! r = Some a -> neo a = Some o -> neo_objs h !! o = Some n ->
  Filter_call
    (create_filters date start_date end_date distance_min distance_max
       velocity_min velocity_max diameter_min diameter_max hazardous) h r =
  Ok (matches_at date start_date end_date distance_min distance_max
        velocity_min velocity_max diameter_min diameter_max hazardous h r).
Proof.
  intros Ha Ho Hn. unfold matches_at. rewrite Ha, Ho, Hn.
  unfold Filter_call, create_filters, vars.
  cbn [filters.date filters.start_date filters.end_date filters.distance_min
       filters.distance_max filters.velocity_min filters.velocity_max
       filters.diameter_min filters.diameter_max filters.hazardous].
  unfold DateFilter_get, DistanceFilter_get, VelocityFilter_get,
    DiameterFilter_get, HazardousFilter_get.
  rewrite 7 (Filter_loop_item _ _ _ _ _ _ _ _ (attribute_Ok _ _ _ _ Ha)).
  rewrite 2 (Filter_loop_item _ _ _ _ _ _ _ _
               (attribute_linked diameter _ _ _ _ _ Ha Ho Hn)).
  rewrite (Filter_loop_item _ _ _ _ _ _ _ _
             (attribute_linked models.hazardous _ _ _ _ _ Ha Ho Hn)).
  reflexivity.
Qed.

(** Every approach of a constructed store is linked to an object of the
    heap. *)
Lemma constructed_linked (neos approaches : list nat) (h : heap)
    (db : NEODatabase) (h' : heap) (r : nat) :
  NEODatabase_init neos approaches h = (Ok db, h') ->
  r ∈ approaches ->
  exists a o n, ca_objs h' !! r = Some a /\ neo a = Some o
                /\ neo_objs h' !! o = Some n.
Proof.
  intros Hinit Hr.
  destruct (NEODatabase_init_Ok _ _ _ _ _ Hinit) as [Hdb [Hvalid Hlink]].
  assert (Hframe := link_frame _ _ _ _ _ Hlink).
  destruct (link_Ok _ _ _ _ Hlink) as [Hin _].
  destruct (Hin r Hr) as [Hneo [o Ho]]. rewrite Ho in Hneo.
  unfold neo_of in Hneo.
  destruct (ca_objs h' !! r) as [a|] eqn:Ha; [|discriminate].
  assert (Hmem : o ∈ neos).
  { unfold target in Ho. destruct (ca_objs h !! r); [|discriminate].
    destruct (dict_getitem _ _) as [i|]; [|discriminate].
    rewrite Hdb in Ho. apply list_elem_of_lookup. exists i. exact Ho. }
  destruct (Hvalid o Hmem) as [n0 Hn0].
  destruct (frame_neo _ _ _ _ Hframe Hn0) as [n [Hn _]].
  exists a, o, n. repeat split; assumption.
Qed.

(** On a constructed store a query with a composite filter of
    [create_filters] raises nothing, whatever the criteria: it yields, in
    the order of the store, the approaches whose data and whose object's
    data meet the criteria. *)
Theorem query_on_store
    (date start_date end_date : option datetime.date_t)
    (distance_min distance_max velocity_min velocity_max : option float)
    (diameter_min diameter_max : option float) (hazardous : option bool)
    (neos approaches : list nat) (h : heap) (db : NEODatabase) (h' : heap)
    (fuel : nat) :
  NEODatabase_init neos approaches h = (Ok db, h') ->
  (length approaches < fuel)%nat ->
  fst <$> collect fuel h'
            (query db
               (Some (callable
                  (Filter_call
                     (create_filters date start_date end_date distance_min
                        distance_max velocity_min velocity_max diameter_min
                        diameter_max hazardous))))) =
  Some (Ok (List.filter
              (matches_at date start_date end_date distance_min distance_max
                 velocity_min velocity_max diameter_min diameter_max
                 hazardous h')
              approaches)).
Proof.
  intros Hinit Hfuel.
  assert (Happroaches : _approaches db = approaches).
  { destruct (NEODatabase_init_Ok _ _ _ _ _ Hinit) as [-> _]. reflexivity. }
  unfold query. rewrite Happroaches. apply collect_query; [|exact Hfuel].
  intros r Hr.
  destruct (constructed_linked _ _ _ _ _ r Hinit Hr) as [a [o [n [Ha [Ho Hn]]]]].
  apply (Filter_call_linked _ _ _ _ _ _ _ _ _ _ _ _ a o n); assumption.
Qed.

Lemma query_on_store_witness :
  (NEODatabase_init [0%nat] [0%nat] unlinked = (Ok sample_db, linked)
   /\ (length [0%nat] < 2)%nat)
  /\ fst <$> collect 2 linked
               (query sample_db
                  (Some (callable
                     (Filter_call
                        (create_filters None None None None None None None
                           (Some (distance flyby)) None (Some false)))))) =
     Some (Ok []).
Proof.
  assert (Hlt : (length [0%nat] < 2)%nat) by (simpl; lia).
  split; [split; [exact sample_linked|exact Hlt]|].
  exact (query_on_store None None None None None None None
           (Some (distance flyby)) None (Some false)
           [0%nat] [0%nat] unlinked sample_db linked 2 sample_linked Hlt).
Defined.



(** ** The records and their texts *)



(** [NearEarthObject.__str__] never says that the diameter is undefined:
    its test compares the diameter with not-a-number by [==], which is
    false for every float, so that the text always gives the formatted
    diameter, also when the diameter is not-a-number. *)
Theorem str_never_undefined (format_float : string -> float -> string)
    (self : NearEarthObject) :
  NearEarthObject_str format_float self =
  "NEO " +:+ fullname self +:+ " has "
  +:+ ("a diameter of " +:+ format_float ".3f" (diameter self) +:+ " km")
  +:+ " and marked as a "
  +:+ (if models.hazardous self
       then "potentially hazardous asteroid" else "safe asteroid")
  +:+ ".".
Proof.
  unfold NearEarthObject_str.
  rewrite (proj2 (nan_compare operator.eq (diameter self))). reflexivity.
Qed.

(** ** The rows of the output *)

Lemma to_csv_keys (datetime_to_str : datetime.datetime -> string)
    (h : heap) (self : nat) (rowdict : list (string * pyvalue)) :
  to_csv datetime_to_str h self = Ok rowdict ->
  map fst rowdict = fieldnames
  /\ writerow fieldnames rowdict = Ok (map snd rowdict).
Proof.
  unfold to_csv.
  destruct (attribute _ h self) as [a|]; [|discriminate]. simpl.
  destruct (neo_attribute designation h self) as [d|]; [|discriminate].
  destruct (neo_attribute name h self) as [nm|]; [|discriminate].
  destruct (neo_attribute diameter h self) as [x|]; [|discriminate].
  destruct (neo_attribute models.hazardous h self) as [b|]; [|discriminate].
  simpl. intros [= <-]. split; reflexivity.
Qed.

(** The dictionary of [to_csv] has the field names of [write_to_csv] for
    keys, in their order, so that the CSV writer takes it and writes its
    values. *)
Theorem to_csv_fits_writer (datetime_to_str : datetime.datetime -> string)
    (h : heap) (self : nat) (rowdict : list (string * pyvalue)) :
  to_csv datetime_to_str h self = Ok rowdict ->
  map fst rowdict = fieldnames
  /\ writerow fieldnames rowdict = Ok (map snd rowdict).
Proof.
  unfold to_csv, neo_attribute, attribute.
  destruct (ca_objs h !! self) as [a|]; [|discriminate]. simpl.
  destruct (neo a) as [o|]; [|discriminate].
  destruct (neo_objs h !! o) as [n|]; [|discriminate]. simpl.
  intros [= <-]. split; reflexivity.
Qed.

Lemma to_csv_fits_writer_witness :
  to_csv (fun _ => "2020-Jan-01 00:00"%string) linked 0%nat =
    Ok [ ("datetime_utc", VStr "2020-Jan-01 00:00");
         ("distance_au", VFloat (distance flyby));
         ("velocity_km_s", VFloat (velocity flyby));
         ("designation", VStr "A1"); ("name", VStr "Rocky");
         ("diameter_km", VFloat nan);
         ("potentially_hazardous", VBool false) ]%string
  /\ writerow fieldnames
       [ ("datetime_utc", VStr "2020-Jan-01 00:00");
         ("distance_au", VFloat (distance flyby));
         ("velocity_km_s", VFloat (velocity flyby));
         ("designation", VStr "A1"); ("name", VStr "Rocky");
         ("diameter_km", VFloat nan);
         ("potentially_hazardous", VBool false) ]%string =
     Ok [ VStr "2020-Jan-01 00:00"; VFloat (distance flyby);
          VFloat (velocity flyby); VStr "A1"; VStr "Rocky"; VFloat nan;
          VBool false ]%string.
Proof.
  assert (Hrow : to_csv (fun _ => "2020-Jan-01 00:00"%string) linked 0%nat =
                 Ok [ ("datetime_utc", VStr "2020-Jan-01 00:00");
                      ("distance_au", VFloat (distance flyby));
                      ("velocity_km_s", VFloat (velocity flyby));
                      ("designation", VStr "A1"); ("name", VStr "Rocky");
                      ("diameter_km", VFloat nan);
                      ("potentially_hazardous", VBool false) ]%string)
    by (vm_compute; reflexivity).
  split; [exact Hrow|].
  exact (proj2 (to_csv_fits_writer _ _ _ _ Hrow)).
Defined.

(** [to_json] and [to_csv] give the same data: the first three items are
    the same, and the other four items of [to_csv] are the dictionary
    under [neo] in [to_json]; and when one raises, so does the other, with
    the same exception, which is [AttributeError] on an approach that is
    not linked. *)
Theorem to_json_nests_to_csv (datetime_to_str : datetime.datetime -> string)
    (h : heap) (self : nat) :
  match to_csv datetime_to_str h self, to_json datetime_to_str h self with
  | Ok c, Ok j =>
      exists top nested,
        length top = 3%nat /\ length nested = 4%nat
        /\ c = top ++ nested
        /\ j = top ++ [("neo"%string, VDict nested)]
  | Raise e, Raise e' =>
      e = e'
      /\ (forall a, ca_objs h !! self = Some a -> neo a = None ->
                    e = AttributeError)
  | _, _ => False
  end.
Proof.
  unfold to_csv, to_json, neo_attribute, attribute.
  destruct (ca_objs h !! self) as [a|] eqn:Ha; simpl;
    [|split; [reflexivity|discriminate]].
  destruct (neo a) as [o|] eqn:Ho; simpl;
    [|split; [reflexivity|reflexivity]].
  destruct (neo_objs h !! o) as [n|]; simpl.
  - eexists [_; _; _], [_; _; _; _]. repeat split.
  - split; [reflexivity|]. intros a' [= <-] Hnone. congruence.
Qed.

Section WriterFacts.
Context {S : Type} `{Iterator S nat}.
Variable datetime_to_str : datetime.datetime -> string.

(** On a stream of approaches that [to_csv] takes, the loop of
    [write_to_csv] adds one row for each, in their order. *)
Lemma write_rows_collect (h : heap) (fuel : nat) :
  forall (s s' : S) (l : list nat) (f : list (list pyvalue)),
  collect fuel h s = Some (Ok l, s') ->
  (forall r, r ∈ l -> exists row, to_csv datetime_to_str h r = Ok row) ->
  exists rows,
    write_rows datetime_to_str fuel h s f = Some (Ok tt, f ++ rows)
    /\ Forall2 (fun r cells =>
                  exists row, to_csv datetime_to_str h r = Ok row
                              /\ cells = map snd row) l rows.
Proof.
  induction fuel as [|fuel IH]; intros s s' l f; simpl; [discriminate|].
  destruct (next h s) as [[[x s1]|]|e].
  - destruct (collect fuel h s1) as [[[l1|e1] s2]|] eqn:Hc;
      intros [= <- <-] Hrows.
    destruct (Hrows x) as [row Hrow]; [left|]. rewrite Hrow.
    rewrite (proj2 (to_csv_keys _ _ _ _ Hrow)).
    destruct (IH s1 s2 l1 (f ++ [map snd row]) Hc) as [rows [Hw Hall]].
    { intros r Hr. apply Hrows. right. exact Hr. }
    exists (map snd row :: rows). rewrite Hw, <- app_assoc. split; [reflexivity|].
    constructor; [|exact Hall]. exists row. split; [exact Hrow|reflexivity].
  - intros [= <- <-] _. exists []. rewrite app_nil_r. split; [reflexivity|].
    constructor.
  - discriminate.
Qed.

Lemma json_results_collect (h : heap) (fuel : nat) :
  forall (s s' : S) (l : list nat),
  collect fuel h s = Some (Ok l, s') ->
  (forall r, r ∈ l -> exists d, to_json datetime_to_str h r = Ok d) ->
  exists js,
    json_results datetime_to_str fuel h s = Some (Ok js)
    /\ Forall2 (fun r j =>
                  exists d, to_json datetime_to_str h r = Ok d /\ j = VDict d)
         l js.
Proof.
  induction fuel as [|fuel IH]; intros s s' l; simpl; [discriminate|].
  destruct (next h s) as [[[x s1]|]|e].
  - destruct (collect fuel h s1) as [[[l1|e1] s2]|] eqn:Hc;
      intros [= <- <-] Hrows.
    destruct (Hrows x) as [d Hd]; [left|]. rewrite Hd.
    destruct (IH s1 s2 l1 Hc) as [js [Hj Hall]].
    { intros r Hr. apply Hrows. right. exact Hr. }
    exists (VDict d :: js). rewrite Hj. split; [reflexivity|].
    constructor; [|exact Hall]. exists d. split; [exact Hd|reflexivity].
  - intros [= <- <-] _. exists []. split; [reflexivity|constructor].
  - discriminate.
Qed.

(** On a constructed store the two writers raise nothing, whatever stream
    of approaches of the store they are handed (a query, limited or not):
    [write_to_csv] writes the header and then one row for each approach of
    the stream, in its order, with the values of [to_csv], and
    [write_to_json] dumps the list of their [to_json] dictionaries. *)
Theorem writers_on_store (neos approaches : list nat) (h : heap)
    (db : NEODatabase) (h' : heap) (fuel : nat) (results results' : S)
    (l : list nat) :
  NEODatabase_init neos approaches h = (Ok db, h') ->
  collect fuel h' results = Some (Ok l, results') ->
  (forall r, r ∈ l -> r ∈ approaches) ->
  (exists rows,
     write_to_csv datetime_to_str fuel h' results =
       Some (Ok tt, map VStr fieldnames :: rows)
     /\ Forall2 (fun r cells =>
                   exists row, to_csv datetime_to_str h' r = Ok row
                               /\ cells = map snd row) l rows)
  /\ (exists js,
        write_to_json datetime_to_str fuel h' results = Some (Ok js)
        /\ Forall2 (fun r j =>
                      exists d, to_json datetime_to_str h' r = Ok d
                                /\ j = VDict d) l js).
Proof.
  intros Hinit Hcollect Hsub.
  assert (Hlinked : forall r, r ∈ l ->
            exists a o n, ca_objs h' !! r = Some a /\ neo a = Some o
                          /\ neo_objs h' !! o = Some n).
  { intros r Hr. apply (constructed_linked _ _ _ _ _ r Hinit). apply Hsub.
    exact Hr. }
  split.
  - unfold write_to_csv.
    destruct (write_rows_collect h' fuel results results' l
                [map VStr fieldnames] Hcollect) as [rows [Hw Hall]].
    + intros r Hr. destruct (Hlinked r Hr) as [a [o [n [Ha [Ho Hn]]]]].
      unfold to_csv, neo_attribute, attribute. rewrite Ha. simpl.
      rewrite Ho, Hn. simpl. eexists; reflexivity.
    + exists rows. split; [exact Hw|exact Hall].
  - unfold write_to_json. apply (json_results_collect h' fuel results results' l);
      [exact Hcollect|].
    intros r Hr. destruct (Hlinked r Hr) as [a [o [n [Ha [Ho Hn]]]]].
    unfold to_json, neo_attribute, attribute. rewrite Ha. simpl.
    rewrite Ho, Hn. simpl. eexists; reflexivity.
Qed.
End WriterFacts.

Lemma writers_on_store_witness :
  (NEODatabase_init [0%nat] [0%nat] unlinked = (Ok sample_db, linked)
   /\ collect 2 linked [0%nat] = Some (Ok [0%nat], [])
   /\ forall r, r ∈ [0%nat] -> r ∈ [0%nat])
  /\ exists rows,
       write_to_csv (fun _ => "2020-Jan-01 00:00"%string) 2 linked [0%nat] =
       Some (Ok tt, map VStr fieldnames :: rows)
       /\ length rows = 1%nat.
Proof.
  assert (Hc : collect 2 linked [0%nat] = Some (Ok [0%nat], []))
    by reflexivity.
  split; [split; [exact sample_linked|split; [exact Hc|auto]]|].
  destruct (writers_on_store (fun _ => "2020-Jan-01 00:00"%string)
              [0%nat] [0%nat] unlinked sample_db linked 2 [0%nat] []
              [0%nat] sample_linked Hc (fun r Hr => Hr))
    as [[rows [Hw Hall]] _].
  exists rows. split; [exact Hw|].
  symmetry. exact (Forall2_length _ _ _ Hall).
Defined.

(** ** Loading *)

Lemma fresh_neo (h : heap) : neo_objs h !! fresh (dom (neo_objs h)) = None.
Proof. apply not_elem_of_dom. apply is_fresh. Qed.

Lemma fresh_ca (h : heap) : ca_objs h !! fresh (dom (ca_objs h)) = None.
Proof. apply not_elem_of_dom. apply is_fresh. Qed.

Section LoadingFacts.
Variable float_unicode : string -> result float.

Lemma load_neos_loop_Ok (content : list csv_row) :
  forall neos h out h',
  load_neos_loop float_unicode content neos h = (Ok out, h') ->
  exists new,
    out = neos ++ new
    /\ NoDup new
    /\ (forall r, r ∈ new -> neo_objs h !! r = None)
    /\ Forall2 (fun r row =>
                  row_rest row = None
                  /\ exists n, neo_objs h' !! r = Some n
                               /\ NearEarthObject_init float_unicode
                                    (row_fields row) = Ok n)
         new content
    /\ (forall r, is_Some (neo_objs h !! r) ->
                  neo_objs h' !! r = neo_objs h !! r)
    /\ ca_objs h' = ca_objs h.
Proof.
  induction content as [|row content IH]; intros neos h out h'; simpl.
  - intros [= <- <-]. exists []. rewrite app_nil_r.
    repeat split; try constructor. intros r Hr. inversion Hr.
  - unfold bindM, lift, new_neo.
    destruct (NearEarthObject_of_row float_unicode row) as [o|e] eqn:Hrow;
      [|discriminate].
    assert (Hfields : row_rest row = None
                      /\ NearEarthObject_init float_unicode (row_fields row)
                         = Ok o).
    { unfold NearEarthObject_of_row in Hrow.
      destruct (row_rest row); [discriminate|]. split; [reflexivity|exact Hrow]. }
    set (r0 := fresh (dom (neo_objs h))).
    set (h1 := Heap (<[r0 := o]> (neo_objs h)) (ca_objs h)).
    intros Hloop.
    destruct (IH _ _ _ _ Hloop) as [new [-> [Hnodup [Hfresh [Hall [Hkeep Hca]]]]]].
    assert (Hr0 : neo_objs h !! r0 = None) by apply fresh_neo.
    assert (Hr0' : neo_objs h' !! r0 = Some o).
    { rewrite Hkeep; unfold h1; cbn [neo_objs]; rewrite lookup_insert_eq;
        [reflexivity|eexists; reflexivity]. }
    exists (r0 :: new). rewrite <- app_assoc. split; [reflexivity|].
    split; [|split; [|split; [|split]]].
    + constructor; [|exact Hnodup]. intros Hin.
      specialize (Hfresh r0 Hin). unfold h1 in Hfresh. cbn [neo_objs] in Hfresh.
      rewrite lookup_insert_eq in Hfresh. discriminate.
    + intros r Hr. apply elem_of_cons in Hr as [-> | Hr]; [exact Hr0|].
      specialize (Hfresh r Hr). unfold h1 in Hfresh. cbn [neo_objs] in Hfresh.
      destruct (decide (r0 = r)) as [<-|Hne];
        [rewrite lookup_insert_eq in Hfresh; discriminate|].
      rewrite lookup_insert_ne in Hfresh by exact Hne. exact Hfresh.
    + constructor; [|exact Hall]. split; [apply Hfields|].
      exists o. split; [exact Hr0'|apply Hfields].
    + intros r Hr. assert (Hne : r0 <> r).
      { intros <-. rewrite Hr0 in Hr. destruct Hr as [? Hr]. discriminate. }
      rewrite Hkeep; unfold h1; cbn [neo_objs];
        rewrite lookup_insert_ne by exact Hne; [reflexivity|exact Hr].
    + exact Hca.
Qed.



Section LoadApproachesFacts.
Variable cd_to_datetime : option string -> result datetime.datetime.

Lemma load_approaches_loop_Ok (fields : list string)
    (data : list (list (option string))) :
  forall approaches h out h',
  load_approaches_loop float_unicode cd_to_datetime fields data approaches h =
  (Ok out, h') ->
  exists new,
    out = approaches ++ new
    /\ NoDup new
    /\ (forall r, r ∈ new -> ca_objs h !! r = None)
    /\ Forall2 (fun r info =>
                  exists a, ca_objs h' !! r = Some a
                            /\ CloseApproach_init float_unicode
                                 cd_to_datetime (dict_zip fields info) = Ok a)
         new data
    /\ (forall r, is_Some (ca_objs h !! r) ->
                  ca_objs h' !! r = ca_objs h !! r)
    /\ neo_objs h' = neo_objs h.
Proof.
  induction data as [|info data IH]; intros approaches h out h'; simpl.
  - intros [= <- <-]. exists []. rewrite app_nil_r.
    repeat split; try constructor. intros r Hr. inversion Hr.
  - unfold bindM, lift, new_ca.
    destruct (CloseApproach_init _ _ _) as [a|e] eqn:Hrow; [|discriminate].
    set (r0 := fresh (dom (ca_objs h))).
    set (h1 := Heap (neo_objs h) (<[r0 := a]> (ca_objs h))).
    intros Hloop.
    destruct (IH _ _ _ _ Hloop) as [new [-> [Hnodup [Hfresh [Hall [Hkeep Hneo]]]]]].
    assert (Hr0 : ca_objs h !! r0 = None) by apply fresh_ca.
    assert (Hr0' : ca_objs h' !! r0 = Some a).
    { rewrite Hkeep; unfold h1; cbn [ca_objs]; rewrite lookup_insert_eq;
        [reflexivity|eexists; reflexivity]. }
    exists (r0 :: new). rewrite <- app_assoc. split; [reflexivity|].
    split; [|split; [|split; [|split]]].
    + constructor; [|exact Hnodup]. intros Hin.
      specialize (Hfresh r0 Hin). unfold h1 in Hfresh. cbn [ca_objs] in Hfresh.
      rewrite lookup_insert_eq in Hfresh. discriminate.
    + intros r Hr. apply elem_of_cons in Hr as [-> | Hr]; [exact Hr0|].
      specialize (Hfresh r Hr). unfold h1 in Hfresh. cbn [ca_objs] in Hfresh.
      destruct (decide (r0 = r)) as [<-|Hne];
        [rewrite lookup_insert_eq in Hfresh; discriminate|].
      rewrite lookup_insert_ne in Hfresh by exact Hne. exact Hfresh.
    + constructor; [|exact Hall]. exists a. split; [exact Hr0'|exact Hrow].
    + intros r Hr. assert (Hne : r0 <> r).
      { intros <-. rewrite Hr0 in Hr. destruct Hr as [? Hr]. discriminate. }
      rewrite Hkeep; unfold h1; cbn [ca_objs];
        rewrite lookup_insert_ne by exact Hne; [reflexivity|exact Hr].
    + exact Hneo.
Qed.

(** [load_approaches] makes one approach for each row of the data, in
    the order of the rows, from the fields zipped with the row: no
    reference twice, none of an approach that was there before, and the
    objects and the approaches that were there are as they were. *)
Theorem load_approaches_objects (fields : list string)
    (data : list (list (option string))) (h : heap) (approaches : list nat)
    (h' : heap) :
  load_approaches float_unicode cd_to_datetime fields data h =
  (Ok approaches, h') ->
  NoDup approaches
  /\ (forall r, r ∈ approaches -> ca_objs h !! r = None)
  /\ Forall2 (fun r info =>
                exists a, ca_objs h' !! r = Some a
                          /\ CloseApproach_init float_unicode cd_to_datetime
                               (dict_zip fields info) = Ok a)
       approaches data
  /\ (forall r, is_Some (ca_objs h !! r) -> ca_objs h' !! r = ca_objs h !! r)
  /\ neo_objs h' = neo_objs h.
Proof.
  intros Hload.
  destruct (load_approaches_loop_Ok fields data [] h approaches h' Hload)
    as [new [-> Hrest]]. exact Hrest.
Qed.

Lemma init_unlinked (info : gmap string (option string))
    (n : NearEarthObject) :
  NearEarthObject_init float_unicode info = Ok n ->
  models.approaches n = [] /\ name n <> Some ""%string.
Proof.
  unfold NearEarthObject_init.
  destruct (float_of _ _) as [d|e]; [|discriminate]. cbn [bind].
  intros [= <-]. split; [reflexivity|]. cbn [name].
  destruct (decide (get info "name" None = Some ""%string)) as [H|H];
    [discriminate|exact H].
Qed.

(** From the rows to the store: when the objects and the approaches are
    those that [load_neos] and [load_approaches] have made, the
    constructor finds them as it expects them, and in the store it builds
    every object lists the approaches that refer to it, each once, in the
    order of the data, and no object is found under the empty name. *)
Theorem loaded_store (content : list csv_row)
    (fields : list string) (data : list (list (option string)))
    (h0 h1 h2 h3 : heap) (neos approaches : list nat) (db : NEODatabase) :
  load_neos float_unicode content h0 = (Ok neos, h1) ->
  load_approaches float_unicode cd_to_datetime fields data h1 =
  (Ok approaches, h2) ->
  NEODatabase_init neos approaches h2 = (Ok db, h3) ->
  (forall O, O ∈ neos ->
     exists n', neo_objs h3 !! O = Some n'
       /\ models.approaches n' =
          filter (fun a => neo_of h3 a = Some O) approaches
       /\ NoDup (models.approaches n'))
  /\ get_neo_by_name db (Some ""%string) = Ok None.
Proof.
  intros Hneos Happr Hinit.
  destruct (load_neos_loop_Ok content [] h0 neos h1 Hneos)
    as [new [-> [_ [_ [Hobjs _]]]]]. simpl in *.
  destruct (load_approaches_loop_Ok fields data [] h1 approaches h2 Happr)
    as [new' [-> [Hnodup [_ [_ [_ Hsame]]]]]]. simpl in *.
  assert (Hmade : forall O, O ∈ new ->
            exists n, neo_objs h2 !! O = Some n
                      /\ models.approaches n = []
                      /\ name n <> Some ""%string).
  { intros O HO. apply list_elem_of_lookup in HO as [i Hi].
    destruct (Forall2_lookup_l _ _ _ _ _ Hobjs Hi)
      as [row [_ [_ [n [Hn Hrow]]]]].
    exists n. rewrite Hsame. split; [exact Hn|].
    exact (init_unlinked _ _ Hrow). }
  destruct (NEODatabase_init_Ok _ _ _ _ _ Hinit) as [Hdb [_ Hlink]].
  destruct (link_Ok _ _ _ _ Hlink) as [Hin [_ Happ]].
  split.
  - intros O HO. destruct (Hmade O HO) as [n [Hn [Hempty _]]].
    destruct (Happ O n Hn) as [n' [Hn' Hlist]].
    rewrite Hempty in Hlist. simpl in Hlist.
    assert (Heq : models.approaches n' =
                  filter (fun a => neo_of h3 a = Some O) new').
    { rewrite Hlist. apply filter_ext_elem. intros a Ha.
      destruct (Hin a Ha) as [-> _]. reflexivity. }
    exists n'. split; [exact Hn'|]. split; [exact Heq|].
    rewrite Heq. apply NoDup_filter. exact Hnodup.
  - unfold get_neo_by_name. rewrite Hdb. cbn [_neosByName _neos].
    apply (index_lookup (key_at name h2) new ""%string).
    intros r Hr. destruct (Hmade r Hr) as [n [Hn [_ Hname]]].
    unfold key_at. rewrite Hn. exact Hname.
Qed.
End LoadApproachesFacts.
End LoadingFacts.


Lemma loaded_store_witness :
  exists h1 h2 h3 db,
    load_neos any_unicode
      [ {| row_fields := {[ "pdes"%string := Some "A1"%string;
                            "name"%string := Some "Rocky"%string ]};
           row_rest := None |} ] (Heap ∅ ∅) =
      (Ok [0%nat], h1)
    /\ load_approaches any_unicode (fun _ => Ok (time flyby))
         [ "des"; "dist" ]%string
         [ [ Some "A1"; Some "0.5" ]%string ] h1 =
       (Ok [0%nat], h2)
    /\ NEODatabase_init [0%nat] [0%nat] h2 = (Ok db, h3)
    /\ get_neo_by_name db (Some ""%string) = Ok None.
Proof.
  destruct (load_neos any_unicode
              [ {| row_fields := {[ "pdes"%string := Some "A1"%string;
                                    "name"%string := Some "Rocky"%string ]};
                   row_rest := None |} ] (Heap ∅ ∅))
    as [r1 h1] eqn:H1.
  assert (Hr1 : r1 = Ok [0%nat]) by (vm_compute in H1; congruence).
  subst r1.
  destruct (load_approaches any_unicode (fun _ => Ok (time flyby))
              [ "des"; "dist" ]%string
              [ [ Some "A1"; Some "0.5" ]%string ] h1)
    as [r2 h2] eqn:H2.
  assert (Hr2 : r2 = Ok [0%nat]).
  { vm_compute in H1. injection H1 as <-. vm_compute in H2. congruence. }
  subst r2.
  destruct (NEODatabase_init [0%nat] [0%nat] h2) as [r3 h3] eqn:H3.
  assert (Hr3 : exists db, r3 = Ok db).
  { vm_compute in H1. injection H1 as <-. vm_compute in H2.
    injection H2 as <-. vm_compute in H3. injection H3 as <- _.
    eexists; reflexivity. }
  destruct Hr3 as [db ->].
  exists h1, h2, h3, db. repeat split; try assumption.
  exact (proj2 (loaded_store any_unicode (fun _ => Ok (time flyby))
                  _ _ _ _ _ _ _ _ _ _ H1 H2 H3)).
Defined.

Lemma load_approaches_objects_witness :
  load_approaches any_unicode (fun _ => Ok (time flyby))
    [ "des"; "dist" ]%string
    [ [ Some "A1"; Some "0.5" ]%string; [ Some "B2" ]%string ] (Heap ∅ ∅) =
    (Ok [0%nat; 1%nat],
     Heap ∅ {[ 0%nat := {| _designation := Some "A1"%string;
                           time := time flyby; distance := distance flyby;
                           velocity := nan; neo := None |};
               1%nat := orphan ]})
  /\ NoDup [0%nat; 1%nat].
Proof.
  assert (Hload :
    load_approaches any_unicode (fun _ => Ok (time flyby))
      [ "des"; "dist" ]%string
      [ [ Some "A1"; Some "0.5" ]%string; [ Some "B2" ]%string ] (Heap ∅ ∅) =
    (Ok [0%nat; 1%nat],
     Heap ∅ {[ 0%nat := {| _designation := Some "A1"%string;
                           time := time flyby; distance := distance flyby;
                           velocity := nan; neo := None |};
               1%nat := orphan ]}))
    by (vm_compute; reflexivity).
  split; [exact Hload|].
  exact (proj1 (load_approaches_objects _ _ _ _ _ _ _ Hload)).
Defined.

Lemma to_json_nests_to_csv_witness :
  to_csv (fun _ => ""%string) unlinked 0%nat = Raise AttributeError
  /\ to_json (fun _ => ""%string) unlinked 0%nat = Raise AttributeError.
Proof.
  pose proof (to_json_nests_to_csv (fun _ => ""%string) unlinked 0%nat) as H.
  destruct (to_csv (fun _ => ""%string) unlinked 0%nat) as [c|e] eqn:Hc;
    [vm_compute in Hc; discriminate|].
  destruct (to_json (fun _ => ""%string) unlinked 0%nat) as [j|e'];
    [contradiction|].
  destruct H as [<- He]. rewrite (He flyby eq_refl eq_refl).
  split; reflexivity.
Defined.

(** [CloseApproach.__str__] gives the placeholder text on an approach that
    is not linked, and on every approach of a constructed store a sentence
    that starts with the time of the approach and the full name of its
    object. *)
Theorem str_of_approach (format_float : string -> float -> string)
    (datetime_to_str : datetime.datetime -> string)
    (neos approaches : list nat) (h : heap) (db : NEODatabase) (h' : heap) :
  (forall r a, ca_objs h !! r = Some a -> neo a = None ->
     CloseApproach_str format_float datetime_to_str h r =
     Ok "empty CloseApproach object"%string)
  /\ (NEODatabase_init neos approaches h = (Ok db, h') ->
      forall r, r ∈ approaches ->
      exists a o n rest,
        ca_objs h' !! r = Some a /\ neo a = Some o
        /\ neo_objs h' !! o = Some n
        /\ CloseApproach_str format_float datetime_to_str h' r =
           Ok ("On " +:+ datetime_to_str (time a) +:+ ", " +:+ fullname n
               +:+ rest)).
Proof.
  split.
  - intros r a Ha Hneo. unfold CloseApproach_str, attribute. rewrite Ha.
    simpl. rewrite Hneo. reflexivity.
  - intros Hinit r Hr.
    destruct (constructed_linked _ _ _ _ _ r Hinit Hr) as [a [o [n [Ha [Ho Hn]]]]].
    exists a, o, n. eexists. repeat split; try eassumption.
    unfold CloseApproach_str, neo_attribute, attribute, time_str.
    rewrite Ha. simpl. rewrite Ho, Hn. simpl. reflexivity.
Qed.

Lemma str_of_approach_witness :
  (ca_objs unlinked !! 0%nat = Some flyby /\ neo flyby = None
   /\ NEODatabase_init [0%nat] [0%nat] unlinked = (Ok sample_db, linked))
  /\ CloseApproach_str (fun _ _ => "0.50"%string)
       (fun _ => "2020-Jan-01 00:00"%string) unlinked 0%nat =
     Ok "empty CloseApproach object"%string
  /\ exists a o n rest,
       ca_objs linked !! 0%nat = Some a /\ neo a = Some o
       /\ neo_objs linked !! o = Some n
       /\ CloseApproach_str (fun _ _ => "0.50"%string)
            (fun _ => "2020-Jan-01 00:00"%string) linked 0%nat =
          Ok ("On " +:+ "2020-Jan-01 00:00" +:+ ", " +:+ fullname n +:+ rest).
Proof.
  destruct (str_of_approach (fun _ _ => "0.50"%string)
              (fun _ => "2020-Jan-01 00:00"%string)
              [0%nat] [0%nat] unlinked sample_db linked) as [Hempty Hlinked].
  split; [split; [reflexivity|split; [reflexivity|exact sample_linked]]|].
  split.
  - exact (Hempty 0%nat flyby eq_refl eq_refl).
  - apply (Hlinked sample_linked 0%nat). left.
Defined.

(** ** The field map of an approach *)

Lemma foldl_insert_notin (pairs : list (string * option string))
    (k : string) :
  k ∉ map fst pairs ->
  forall d : gmap string (option string),
  foldl (fun d kv => <[fst kv := snd kv]> d) d pairs !! k = d !! k.
Proof.
  induction pairs as [|[k0 v0] pairs IH]; intros Hk d; simpl; [reflexivity|].
  rewrite IH by (intros Hin; apply Hk; right; exact Hin).
  apply lookup_insert_ne. intros ->. apply Hk. left.
Qed.

(** [dict(zip(fields, info))] gives, under a field name that occurs once
    among the fields, the value of the row at the position of the name,
    and nothing under a name whose position the row does not reach or
    that is no field. *)
Theorem dict_zip_lookup (fields : list string)
    (info : list (option string)) :
  NoDup fields ->
  (forall i k v, fields !! i = Some k -> info !! i = Some v ->
                 dict_zip fields info !! k = Some v)
  /\ (forall i k, fields !! i = Some k -> info !! i = None ->
                  dict_zip fields info !! k = None)
  /\ (forall k, k ∉ fields -> dict_zip fields info !! k = None).
Proof.
  unfold dict_zip.
  assert (Hgen : forall fields info, NoDup fields ->
            forall d : gmap string (option string),
            (forall i k v, fields !! i = Some k -> info !! i = Some v ->
               foldl (fun d kv => <[fst kv := snd kv]> d) d (zip fields info)
                 !! k = Some v)
            /\ (forall k, (forall i, fields !! i = Some k -> info !! i = None) ->
                  foldl (fun d kv => <[fst kv := snd kv]> d) d (zip fields info)
                    !! k = d !! k)).
  { clear fields info. induction fields as [|f fields IH]; intros info Hnd d.
    - split; [intros i k v Hi; rewrite lookup_nil in Hi; discriminate|].
      reflexivity.
    - apply NoDup_cons in Hnd as [Hf Hnd].
      destruct info as [|x info].
      + split; [intros i k v _ Hi; rewrite lookup_nil in Hi; discriminate|].
        reflexivity.
      + simpl. destruct (IH info Hnd (<[f := x]> d)) as [IH1 IH2]. split.
        * intros [|i] k v Hk Hv; simpl in Hk, Hv.
          -- injection Hk as <-. injection Hv as <-.
             rewrite IH2; [apply lookup_insert_eq|].
             intros i Hi. exfalso. apply Hf.
             apply list_elem_of_lookup. exists i. exact Hi.
          -- apply (IH1 i k v Hk Hv).
        * intros k Hk. rewrite IH2.
          -- apply lookup_insert_ne. intros ->.
             specialize (Hk 0%nat eq_refl). discriminate.
          -- intros i Hi. apply (Hk (Datatypes.S i)). exact Hi. }
  intros Hnd. destruct (Hgen fields info Hnd ∅) as [H1 H2].
  split; [exact H1|]. split.
  - intros i k Hk Hnone. rewrite H2; [apply lookup_empty|].
    intros j Hj. assert (j = i) as ->; [|exact Hnone].
    apply (NoDup_lookup fields j i k Hnd Hj Hk).
  - intros k Hk. rewrite H2; [apply lookup_empty|].
    intros i Hi. exfalso. apply Hk. apply list_elem_of_lookup. exists i.
    exact Hi.
Qed.

Lemma dict_zip_lookup_witness :
  NoDup [ "des"; "cd"; "dist" ]%string
  /\ dict_zip [ "des"; "cd"; "dist" ]%string
       [ Some "A1"; Some "2020-Jan-01 00:00" ]%string
       !! "cd"%string = Some (Some "2020-Jan-01 00:00"%string)
  /\ dict_zip [ "des"; "cd"; "dist" ]%string
       [ Some "A1"; Some "2020-Jan-01 00:00" ]%string
       !! "dist"%string = None.
Proof.
  assert (Hnd : NoDup [ "des"; "cd"; "dist" ]%string).
  { repeat constructor; intros Hin;
      repeat (apply elem_of_cons in Hin as [Hin|Hin]; [discriminate|]);
      inversion Hin. }
  split; [exact Hnd|].
  destruct (dict_zip_lookup [ "des"; "cd"; "dist" ]%string
              [ Some "A1"; Some "2020-Jan-01 00:00" ]%string Hnd)
    as [Hsome [Hnone _]].
  split.
  - apply (Hsome 1%nat); reflexivity.
  - apply (Hnone 2%nat); reflexivity.
Defined.
